(** * Nested sampling with a Metropolis proposal: a shallow embedding

    The development follows [Scripts/nest.py] and [Scripts/metropolis.py].

    Numbers.  Python [int] is [Z].  Python [float] is modelled by the exact
    rationals [Q]: the arithmetic is the idealised one, rounding, overflow
    and NaN are outside the model.  The two exceptions that float code can
    raise here are kept: [ZeroDivisionError] of [/] and the [ValueError] of
    [math.log].  Statements about values are therefore kept to what the code
    computes step by step; where the rounding of the program's doubles
    decides a question, the steps concerned are replayed in IEEE binary64
    ([Binary64]).

    Randomness.  [np.random.uniform(0, 1)] reads the next element of a
    stream of draws.  A run is given a finite prefix of that stream; it
    returns the unread rest, and is [Unfinished] when it asks for a draw
    beyond the prefix.  A loop that never exits is therefore a computation
    that is [Unfinished] on every prefix.

    Collaborators.  The modules [sources] and [clust_ellip] and the
    libraries [math] and [numpy] are not part of the two scripts; what the
    scripts use of them is collected in three interfaces
    ([Numerics], [Model], [Clustering]). *)

From Stdlib Require Import ZArith QArith List String Bool Lia Lqa Sorted.
From Stdlib Require PrimFloat Uint63.
From stdpp Require Import base list.
Import ListNotations.

Open Scope Z_scope.
Open Scope Q_scope.

(** ** Python primitives *)

Module Py.

Inductive exn : Type :=
| ZeroDivisionError
| ValueError
| IndexError.

Inductive outcome (T : Type) : Type :=
| Ret (v : T)
| Raise (e : exn)
| Unfinished.

Arguments Ret {T} v.
Arguments Raise {T} e.
Arguments Unfinished {T}.

(** A computation reads draws and either returns a value with the unread
    draws, raises, or runs out of draws. *)
Definition M (T : Type) : Type := list Q -> outcome (T * list Q).

Definition ret {T} (v : T) : M T := fun rs => Ret (v, rs).

Definition bind {T U} (m : M T) (k : T -> M U) : M U :=
  fun rs =>
    match m rs with
    | Ret (v, rs') => k v rs'
    | Raise e => Raise e
    | Unfinished => Unfinished
    end.

Definition raise {T} (e : exn) : M T := fun _ => Raise e.

(** [a < b] and [a > b] on floats. *)
Definition lt (a b : Q) : bool :=
  match a ?= b with Lt => true | _ => false end.

Definition gt (a b : Q) : bool := lt b a.

(** [a / b] on floats. *)
Definition truediv (a b : Q) : M Q :=
  if Qeq_bool b 0 then raise ZeroDivisionError else ret (a / b).

(** [float(n)], the conversion applied when an [int] meets a [float]. *)
Definition float (n : Z) : Q := inject_Z n.

(** [int(x)]: truncation toward zero. *)
Definition int (x : Q) : Z := Z.quot (Qnum x) (Zpos (Qden x)).

(** [range(lo, hi)]. *)
Definition range (lo hi : Z) : list Z :=
  List.map (fun i => (lo + Z.of_nat i)%Z) (List.seq 0 (Z.to_nat (hi - lo))).

(** [l[i]] with Python's negative indices. *)
Definition getitem {T} (l : list T) (i : Z) : M T :=
  let j := if Z.ltb i 0 then (Z.of_nat (length l) + i)%Z else i in
  if Z.ltb j 0 then raise IndexError
  else match l !! Z.to_nat j with
       | Some v => ret v
       | None => raise IndexError
       end.

(** [l[i] = v]. *)
Definition setitem {T} (l : list T) (i : Z) (v : T) : M (list T) :=
  let j := if Z.ltb i 0 then (Z.of_nat (length l) + i)%Z else i in
  if Z.ltb j 0 then raise IndexError
  else if Nat.ltb (Z.to_nat j) (length l)
       then ret (<[Z.to_nat j := v]> l)
       else raise IndexError.

(** [np.argmin] and [np.argmax]: the first index of the least (greatest)
    element, [ValueError] on an empty sequence. *)
Fixpoint argmin_from (best_i : nat) (best : Q) (i : nat) (l : list Q) : nat :=
  match l with
  | [] => best_i
  | x :: l' =>
      if lt x best then argmin_from i x (S i) l'
      else argmin_from best_i best (S i) l'
  end.

Definition argmin (l : list Q) : M Z :=
  match l with
  | [] => raise ValueError
  | x :: l' => ret (Z.of_nat (argmin_from 0 x 1 l'))
  end.

Fixpoint argmax_from (best_i : nat) (best : Q) (i : nat) (l : list Q) : nat :=
  match l with
  | [] => best_i
  | x :: l' =>
      if gt x best then argmax_from i x (S i) l'
      else argmax_from best_i best (S i) l'
  end.

Definition argmax (l : list Q) : M Z :=
  match l with
  | [] => raise ValueError
  | x :: l' => ret (Z.of_nat (argmax_from 0 x 1 l'))
  end.

(** [for i in l: st = body(i, st)]. *)
Fixpoint for_each {S} (l : list Z) (body : Z -> S -> M S) (st : S) : M S :=
  match l with
  | [] => ret st
  | i :: l' => bind (body i st) (for_each l' body)
  end.

End Py.

Import Py.

(** The computations form a monad; stdpp's [x ← m; k] notation is used. *)
#[global] Instance M_ret : MRet M := @ret.
#[global] Instance M_bind : MBind M := fun T U k m => bind m k.

(** ** Collaborators *)

(** Modelled from the spec: the class [Source] of the module [sources] is not
    among the scripts.  The spec's data model gives it the fields X, Y, A, R
    and logL, and logWt, which is assigned only when the point is discarded
    ([None] before). *)
Record Source : Type := mkSource {
  X : Q;
  Y : Q;
  A : Q;
  R : Q;
  logL : Q;
  logWt : option Q
}.

Definition set_X (s : Source) (v : Q) : Source :=
  mkSource v (Y s) (A s) (R s) (logL s) (logWt s).
Definition set_Y (s : Source) (v : Q) : Source :=
  mkSource (X s) v (A s) (R s) (logL s) (logWt s).
Definition set_A (s : Source) (v : Q) : Source :=
  mkSource (X s) (Y s) v (R s) (logL s) (logWt s).
Definition set_R (s : Source) (v : Q) : Source :=
  mkSource (X s) (Y s) (A s) v (logL s) (logWt s).
Definition set_logL (s : Source) (v : Q) : Source :=
  mkSource (X s) (Y s) (A s) (R s) v (logWt s).
Definition set_logWt (s : Source) (v : Q) : Source :=
  mkSource (X s) (Y s) (A s) (R s) (logL s) (Some v).

(** [math.exp], [math.log] (its value where it does not raise) and
    [np.logaddexp]. *)
Class Numerics : Type := {
  math_exp : Q -> Q;
  math_log : Q -> Q;
  np_logaddexp : Q -> Q -> Q
}.

(** What the scripts import from [sources]: the state of a fresh [Source()],
    the likelihood, and the prior bounds as pairs (lower, upper). *)
Class Model : Type := {
  Source_new : Source;
  log_likelihood : Source -> Q;
  getPrior_X : Q * Q;
  getPrior_Y : Q * Q;
  getPrior_R : Q * Q;
  getPrior_A : Q * Q
}.

(** What [nest.py] uses of [clust_ellip]:
    [Clustered_Sampler(active_samples, likelihood_constraint, enlargement,
    no).sample()], which may read draws and returns a point and a call
    count. *)
Class Clustering : Type := {
  Clustered_Sampler_sample : list Source -> Q -> Q -> Z -> M (Source * Z)
}.

(** [log(x)] of [math]: [ValueError] unless [x > 0]. *)
Definition log `{Numerics} (x : Q) : M Q :=
  if lt 0 x then ret (math_log x) else raise ValueError.

(** ** metropolis.py *)

Module metropolis.
Module Metropolis_sampler.
Section Sampler.
Context `{Numerics} `{Model}.

(** The attributes set by [__init__]. *)
Record t : Type := mk {
  source : Source;
  LC : Q;
  step : Q;
  number : Z
}.

Definition init (to_evolve : Source) (likelihood_constraint : Q) (no : Z) : t :=
  {| source := to_evolve; LC := likelihood_constraint; step := 8; number := no |}.

(** The variables of [sample] that change in its loop; [self_step] and
    [self_number] are the two attributes it updates.  [evals] is a ghost
    counter of the calls of [log_likelihood]. *)
Record locals : Type := mkLocals {
  self_step : Q;
  self_number : Z;
  metro : Source;
  new : Source;
  count : Z;
  hit : Z;
  miss : Z;
  stepX : Q;
  stepY : Q;
  stepA : Q;
  stepR : Q;
  evals : nat
}.

(** A coordinate is outside its prior range. *)
Definition outside (v : Q) (b : Q * Q) : bool := gt v (snd b) || lt v (fst b).

(** The four tests that set [bord] to 1. *)
Definition bord_of (s : Source) : bool :=
  outside (X s) getPrior_X || outside (Y s) getPrior_Y
  || outside (A s) getPrior_A || outside (R s) getPrior_R.

(** [while bord==1]: draw the four coordinates until none is outside.
    Every pass reads four draws. *)
Fixpoint propose (m n : Source) (sX sY sA sR : Q) (rs : list Q)
  : outcome (Source * list Q) :=
  match rs with
  | u1 :: u2 :: u3 :: u4 :: rs' =>
      let n := set_X n (X m + sX * (2 * u1 - 1)) in
      let n := set_Y n (Y m + sY * (2 * u2 - 1)) in
      let n := set_A n (A m + sA * (2 * u3 - 1)) in
      let n := set_R n (R m + sR * (2 * u4 - 1)) in
      if bord_of n then propose m n sX sY sA sR rs' else Ret (n, rs')
  | _ => Unfinished
  end.

(** One pass of the body of [while(count<20)]. *)
Definition body (self : t) (st : locals) : M locals :=
  n ← propose (metro st) (new st) (stepX st) (stepY st) (stepA st) (stepR st);
  let n := set_logL n (log_likelihood n) in
  let number' := (self_number st + 1)%Z in
  let '(m, h, ms) :=
    if gt (logL n) (LC self) then (n, (hit st + 1)%Z, miss st)
    else (metro st, hit st, (miss st + 1)%Z) in
  s1 ← (if Z.gtb h ms
        then (e ← truediv 1 (float h); ret (self_step st * math_exp e))
        else ret (self_step st));
  s2 ← (if Z.ltb h ms
        then (e ← truediv 1 (float ms); truediv s1 (math_exp e))
        else ret s1);
  stepnormalize ← truediv s2 (snd getPrior_X);
  ret {| self_step := s2;
         self_number := number';
         metro := m;
         new := n;
         count := (count st + 1)%Z;
         hit := h;
         miss := ms;
         stepX := s2;
         stepY := stepnormalize * (snd getPrior_Y - fst getPrior_Y);
         stepA := stepnormalize * (snd getPrior_A - fst getPrior_A);
         stepR := stepnormalize * (snd getPrior_R - fst getPrior_R);
         evals := S (evals st) |}.

(** [while(count<20)], with a bound on the number of passes. *)
Fixpoint loop (passes : nat) (self : t) (st : locals) : M locals :=
  if Z.ltb (count st) 20
  then match passes with
       | O => fun _ => Unfinished
       | S p => st' ← body self st; loop p self st'
       end
  else ret st.

(** [sample] up to its [return]: the final values of the variables. *)
Definition sample_run (self : t) : M locals :=
  stepnormalize ← truediv (step self) (snd getPrior_X);
  loop 20 self
    {| self_step := step self;
       self_number := (number self + 1)%Z;
       metro := source self;
       new := Source_new;
       count := 0;
       hit := 0;
       miss := 0;
       stepX := step self;
       stepY := stepnormalize * (snd getPrior_Y - fst getPrior_Y);
       stepA := stepnormalize * (snd getPrior_A - fst getPrior_A);
       stepR := stepnormalize * (snd getPrior_R - fst getPrior_R);
       evals := O |}.

Definition sample (self : t) : M (Source * Z) :=
  st ← sample_run self;
  ret (metro st, self_number st).

End Sampler.
End Metropolis_sampler.
End metropolis.

(** ** nest.py *)

Module nest.

(** The class [Metropolis_sampler] at the end of [nest.py]. *)
Module Metropolis_sampler.
Section Sampler.
Context `{Numerics} `{Model}.

(** The attributes set by [__init__]. *)
Record t : Type := mk {
  source : Source;
  LC : Q;
  step : Q;
  number : Z
}.

Definition init (to_evolve : Source) (likelihood_constraint : Q) (no : Z) : t :=
  {| source := to_evolve; LC := likelihood_constraint; step := 8; number := no |}.

(** The variables of [sample] that change in its loop; [self_step] and
    [self_number] are the two attributes it updates.  [evals] is a ghost
    counter of the calls of [log_likelihood]. *)
Record locals : Type := mkLocals {
  self_step : Q;
  self_number : Z;
  metro : Source;
  new : Source;
  count : Z;
  hit : Z;
  miss : Z;
  stepX : Q;
  stepY : Q;
  stepA : Q;
  stepR : Q;
  evals : nat
}.

(** A coordinate is outside its prior range. *)
Definition outside (v : Q) (b : Q * Q) : bool := gt v (snd b) || lt v (fst b).

(** The four tests that set [bord] to 1. *)
Definition bord_of (s : Source) : bool :=
  outside (X s) getPrior_X || outside (Y s) getPrior_Y
  || outside (A s) getPrior_A || outside (R s) getPrior_R.

(** [while bord==1]: draw the four coordinates until none is outside.
    Every pass reads four draws. *)
Fixpoint propose (m n : Source) (sX sY sA sR : Q) (rs : list Q)
  : outcome (Source * list Q) :=
  match rs with
  | u1 :: u2 :: u3 :: u4 :: rs' =>
      let n := set_X n (X m + sX * (2 * u1 - 1)) in
      let n := set_Y n (Y m + sY * (2 * u2 - 1)) in
      let n := set_A n (A m + sA * (2 * u3 - 1)) in
      let n := set_R n (R m + sR * (2 * u4 - 1)) in
      if bord_of n then propose m n sX sY sA sR rs' else Ret (n, rs')
  | _ => Unfinished
  end.

(** One pass of the body of [while(count<20)]. *)
Definition body (self : t) (st : locals) : M locals :=
  n ← propose (metro st) (new st) (stepX st) (stepY st) (stepA st) (stepR st);
  let n := set_logL n (log_likelihood n) in
  let number' := (self_number st + 1)%Z in
  let '(m, h, ms) :=
    if gt (logL n) (LC self) then (n, (hit st + 1)%Z, miss st)
    else (metro st, hit st, (miss st + 1)%Z) in
  s1 ← (if Z.gtb h ms
        then (e ← truediv 1 (float h); ret (self_step st * math_exp e))
        else ret (self_step st));
  s2 ← (if Z.ltb h ms
        then (e ← truediv 1 (float ms); truediv s1 (math_exp e))
        else ret s1);
  stepnormalize ← truediv s2 (snd getPrior_X);
  ret {| self_step := s2;
         self_number := number';
         metro := m;
         new := n;
         count := (count st + 1)%Z;
         hit := h;
         miss := ms;
         stepX := s2;
         stepY := stepnormalize * (snd getPrior_Y - fst getPrior_Y);
         stepA := stepnormalize * (snd getPrior_A - fst getPrior_A);
         stepR := stepnormalize * (snd getPrior_R - fst getPrior_R);
         evals := S (evals st) |}.

(** [while(count<20)], with a bound on the number of passes. *)
Fixpoint loop (passes : nat) (self : t) (st : locals) : M locals :=
  if Z.ltb (count st) 20
  then match passes with
       | O => fun _ => Unfinished
       | S p => st' ← body self st; loop p self st'
       end
  else ret st.

(** [sample] up to its [return]: the final values of the variables. *)
Definition sample_run (self : t) : M locals :=
  stepnormalize ← truediv (step self) (snd getPrior_X);
  loop 20 self
    {| self_step := step self;
       self_number := (number self + 1)%Z;
       metro := source self;
       new := Source_new;
       count := 0;
       hit := 0;
       miss := 0;
       stepX := step self;
       stepY := stepnormalize * (snd getPrior_Y - fst getPrior_Y);
       stepA := stepnormalize * (snd getPrior_A - fst getPrior_A);
       stepR := stepnormalize * (snd getPrior_R - fst getPrior_R);
       evals := O |}.

Definition sample (self : t) : M (Source * Z) :=
  st ← sample_run self;
  ret (metro st, self_number st).

End Sampler.
End Metropolis_sampler.

(** The class [Nested_Sampler]. *)
Module Nested_Sampler.
Section Sampler.
Context `{Numerics} `{Model} `{Clustering}.

(** The attributes set by [__init__]. *)
Record t : Type := mk {
  no_active_samples : Z;
  maximum_iterations : Z;
  sample : string;
  plot : bool;
  convergence_threshold : Q;
  active_samples : list Source;
  log_evidence : option Q;
  posterior_inferences : list Source;
  log_width : option Q;
  Information : option Q;
  no_likelihood : Z
}.

Definition init (active_samples : list Source) (no_active_samples max_iter : Z)
    (sample : string) (plot : bool) (conv_thresh : Q) : t :=
  {| no_active_samples := no_active_samples;
     maximum_iterations := max_iter;
     sample := sample;
     plot := plot;
     convergence_threshold := 1 # 10;
     active_samples := active_samples;
     log_evidence := None;
     posterior_inferences := [];
     log_width := None;
     Information := None;
     no_likelihood := no_active_samples |}.

(** The attributes that [fit] updates and its local variables. *)
Record locals : Type := mkLocals {
  self_active_samples : list Source;
  self_log_evidence : Q;
  self_posterior_inferences : list Source;
  self_log_width : Q;
  self_Information : Q;
  self_no_likelihood : Z;
  LogL : list Q;
  iteration : option Z;
  stop : option Q
}.

(** The mapping returned by [fit]. *)
Record result : Type := mkResult {
  src : list Source;
  samples : list Source;
  logZ : Q;
  Information_ : Q;
  likelihood_calculations : Z;
  iterations : Z
}.

Definition metropolis_sampling (obj : Source) (LC : Q) (likelihood_calc : Z)
  : M (Source * Z) :=
  Metropolis_sampler.sample (Metropolis_sampler.init obj LC likelihood_calc).

(** [clustered_sampling]; [retries] bounds the number of times the
    [while True] loop starts over. *)
Fixpoint clustered_sampling (retries : nat) (active_points : list Source)
    (LC : Q) (likelihood_calc : Z) : M (Source * Z) :=
  '(sample, number) ← Clustered_Sampler_sample active_points LC 1 likelihood_calc;
  if gt (logL sample) LC then ret (sample, number)
  else match retries with
       | O => fun _ => Unfinished
       | S r => clustered_sampling r active_points LC number
       end.

(** The [while True] loop that draws [survivor]: one draw per pass.  [%] on
    ints raises on a zero modulus and otherwise takes the sign of [N]. *)
Fixpoint pick_survivor (N smallest : Z) (rs : list Q) : outcome (Z * list Q) :=
  match rs with
  | [] => Unfinished
  | u :: rs' =>
      if Z.eqb N 0 then Raise ZeroDivisionError
      else
        let survivor := Z.modulo (int (float N * u)) N in
        if negb (Z.eqb survivor smallest) then Ret (survivor, rs')
        else pick_survivor N smallest rs'
  end.

Definition sentinel : Q := - inject_Z (10 ^ 300).

(** The body of the main loop. *)
Definition body (retries : nat) (self : t) (i : Z) (st : locals) : M locals :=
  smallest ← argmin (LogL st);
  worst ← getitem (self_active_samples st) smallest;
  let worst := set_logWt worst (self_log_width st + logL worst) in
  act ← setitem (self_active_samples st) smallest worst;
  largest ← argmax (LogL st);
  best ← getitem act largest;
  let stop' := logL best + self_log_width st - self_log_evidence st in
  let w := self_log_width st + logL worst in
  let temp_evidence := np_logaddexp (self_log_evidence st) w in
  let info :=
    math_exp (w - temp_evidence) * logL worst
    + math_exp (self_log_evidence st - temp_evidence)
      * (self_Information st + self_log_evidence st)
    - temp_evidence in
  let post := self_posterior_inferences st ++ [worst] in
  let likelihood_constraint := logL worst in
  survivor ← pick_survivor (no_active_samples self) smallest;
  '(act, logl, nl) ←
    (if String.eqb (sample self) "metropolis"
     then (obj ← getitem act survivor;
           '(updated, number) ←
             metropolis_sampling obj likelihood_constraint (self_no_likelihood st);
           act' ← setitem act smallest updated;
           logl' ← setitem (LogL st) smallest (logL updated);
           ret (act', logl', number))
     else ret (act, LogL st, self_no_likelihood st));
  '(act, logl, nl) ←
    (if String.eqb (sample self) "clustered_ellipsoidal"
     then ('(updated, number) ←
             clustered_sampling retries act likelihood_constraint nl;
           act' ← setitem act smallest updated;
           logl' ← setitem logl smallest (logL updated);
           ret (act', logl', number))
     else ret (act, logl, nl));
  shrink ← truediv 1 (float (no_active_samples self));
  ret {| self_active_samples := act;
         self_log_evidence := temp_evidence;
         self_posterior_inferences := post;
         self_log_width := self_log_width st - shrink;
         self_Information := info;
         self_no_likelihood := nl;
         LogL := logl;
         iteration := Some i;
         stop := Some stop' |}.

(** The attributes and variables as [fit] sets them before its loop, with
    [w] the initial width. *)
Definition start (self : t) (w : Q) : locals :=
  {| self_active_samples := active_samples self;
     self_log_evidence := sentinel;
     self_posterior_inferences := posterior_inferences self;
     self_log_width := w;
     self_Information := 0;
     LogL := List.map logL (active_samples self);
     self_no_likelihood := no_likelihood self;
     iteration := None;
     stop := None |}.

(** [fit] up to its [return]. *)
Definition fit_run (retries : nat) (self : t) : M locals :=
  d ← truediv (-1) (float (no_active_samples self));
  w ← log (1 - math_exp d);
  for_each (range 1 (maximum_iterations self)) (body retries self) (start self w).

Definition fit (retries : nat) (self : t) : M result :=
  st ← fit_run retries self;
  ret {| src := self_active_samples st;
         samples := self_posterior_inferences st;
         logZ := self_log_evidence st;
         Information_ := self_Information st;
         likelihood_calculations := self_no_likelihood st;
         iterations := maximum_iterations self |}.

End Sampler.
End Nested_Sampler.
End nest.

(** ** A concrete setting

    The bounds are those of the spec's scenarios: X and Y in [0, 200], A in
    [1, 14], R in [2, 9].  The likelihood is a single bump centred at
    (100, 100).  [math.exp] and [math.log] are replaced by rational
    stand-ins; the runs below take offsets that are zero whatever the step
    size is, so that they do not depend on the values of these two. *)

Module Demo.

Definition numerics : Numerics := {|
  math_exp := fun x => 1 + x;
  math_log := fun x => x - 1;
  np_logaddexp := fun a b => if lt a b then b else a
|}.

Definition model : Model := {|
  Source_new := mkSource 0 0 0 0 0 None;
  log_likelihood := fun s =>
    - ((X s - 100) * (X s - 100) + (Y s - 100) * (Y s - 100));
  getPrior_X := (0, 200);
  getPrior_Y := (0, 200);
  getPrior_R := (2, 9);
  getPrior_A := (1, 14)
|}.

(** A clustered sampler that reads one draw [u] and proposes the point
    (200 u, 100, 7, 5), at the cost of one likelihood call. *)
Definition clustering : Clustering := {|
  Clustered_Sampler_sample := fun _ _ _ no rs =>
    match rs with
    | [] => Unfinished
    | u :: rs' =>
        let s := mkSource (200 * u) 100 7 5 0 None in
        Ret ((set_logL s (@log_likelihood model s), (no + 1)%Z), rs')
    end
|}.

Definition at_ (x y : Q) : Source :=
  let s := mkSource x y 7 5 0 None in set_logL s (@log_likelihood model s).

(** The seed at the top of the bump, logL = 0. *)
Definition seed : Source := at_ 100 100.

(** Twenty steps: the first moves X by half a step, the others stay. *)
Definition draws_downhill : list Q :=
  [3 # 4; 1 # 2; 1 # 2; 1 # 2] ++ repeat (1 # 2) 76.

(** Every offset is zero. *)
Definition draws_still (n : nat) : list Q := repeat (1 # 2) n.

Definition ensemble2 : list Source := [at_ 90 100; at_ 100 100].

(** The Metropolis sampler seeded at the top of the bump, with a constraint
    far below, and its run on [draws_downhill]. *)
Definition sampler : metropolis.Metropolis_sampler.t :=
  metropolis.Metropolis_sampler.init seed (- (1000000)) 2.

Definition run_downhill :=
  Eval vm_compute in
    @metropolis.Metropolis_sampler.sample_run numerics model sampler draws_downhill.

Definition sample_downhill :=
  Eval vm_compute in
    @metropolis.Metropolis_sampler.sample numerics model sampler draws_downhill.

(** The variables of [sample] when its loop starts, and the first pass. *)
Definition entry : metropolis.Metropolis_sampler.locals :=
  metropolis.Metropolis_sampler.mkLocals
    8 3 seed (@Source_new model) 0 0 0
    8 (8 / 200 * (200 - 0)) (8 / 200 * (14 - 1)) (8 / 200 * (9 - 2)) 0.

Definition first_pass :=
  Eval vm_compute in
    @metropolis.Metropolis_sampler.body numerics model sampler entry
      [3 # 4; 1 # 2; 1 # 2; 1 # 2].

(** A nested sampler over two points with [max_iter = 3], and its run:
    each pass reads one draw for the survivor and eighty for the chain. *)
Definition nested : nest.Nested_Sampler.t :=
  nest.Nested_Sampler.init ensemble2 2 3 "metropolis" false (1 # 10).

Definition run_nested :=
  Eval vm_compute in
    @nest.Nested_Sampler.fit_run numerics model clustering 0 nested
      (draws_still 162).

Definition fit_nested :=
  Eval vm_compute in
    @nest.Nested_Sampler.fit numerics model clustering 0 nested
      (draws_still 162).

(** The clustered strategy against the constraint -100: the first point,
    at X = 50, is refused, the second, at X = 100, is accepted. *)
Definition run_clustered :=
  Eval vm_compute in
    @nest.Nested_Sampler.clustered_sampling clustering 1 ensemble2 (- (100)) 2
      [1 # 4; 1 # 2].

End Demo.

(** ** The width of nest.py in binary64

    Lines 90 and 154 of [nest.py] in the program's own arithmetic: the width
    is a double, and every pass replaces it by the rounded difference
    [log_width - 1.0 / no_active_samples]. *)

Module Binary64.
Import PrimFloat.

(** [float(n)] for a non-negative int below 2^63 (exact below 2^53). *)
Definition float_of_int (n : Z) : float := of_uint63 (Uint63.of_Z n).

(** [self.log_width -= 1.0 / self.no_active_samples]. *)
Definition shrink (log_width : float) (no_active_samples : Z) : float :=
  (log_width - 1 / float_of_int no_active_samples)%float.

(** The width after [k] passes, from the initial width [w0]. *)
Definition log_width_after (w0 : float) (no_active_samples : Z) (k : nat) : float :=
  Nat.iter k (fun w => shrink w no_active_samples) w0.

(** The closed form [w0 - k/N], evaluated in doubles. *)
Definition closed_form (w0 : float) (no_active_samples : Z) (k : nat) : float :=
  (w0 - float_of_int (Z.of_nat k) / float_of_int no_active_samples)%float.

(** The double nearest to log(1 - exp(-1/100)) = -4.610166019324902. *)
Definition initial_width_100 : float := (-0x1.270cf5c68861ap+2)%float.

(** The doubles from [n] places below [w] to [n] places above it. *)
Fixpoint above (w : float) (n : nat) : list float :=
  match n with
  | O => []
  | S n' => next_up w :: above (next_up w) n'
  end.

Fixpoint below (w : float) (n : nat) : list float :=
  match n with
  | O => []
  | S n' => next_down w :: below (next_down w) n'
  end.

Definition around (w : float) (n : nat) : list float :=
  List.rev (below w n) ++ w :: above w n.

End Binary64.

(** ** Statements of the spec, in its own words *)

Module Spec.
Section Spec.
Context `{Numerics} `{Model}.

(** "multiply by exp(1/hits) if hits > misses, divide by exp(1/misses) if
    misses > hits; no adaptation when hits == misses". *)
Definition adapt (stepBase : Q) (hits misses : Z) : Q :=
  if Z.ltb misses hits then stepBase * math_exp (1 / inject_Z hits)
  else if Z.ltb hits misses then stepBase / math_exp (1 / inject_Z misses)
  else stepBase.

(** "stepDim = (stepBase / xUpper) (dimUpper - dimLower)". *)
Definition stepDim (stepBase : Q) (dim : Q * Q) : Q :=
  stepBase / snd getPrior_X * (snd dim - fst dim).

(** A coordinate within its prior bounds, and a Source with all four. *)
Definition within (v : Q) (b : Q * Q) : Prop := fst b <= v /\ v <= snd b.

Definition in_bounds (s : Source) : Prop :=
  within (X s) getPrior_X /\ within (Y s) getPrior_Y /\
  within (A s) getPrior_A /\ within (R s) getPrior_R.

(** The weights of the entries of a trace, oldest first. *)
Definition weights (trace : list Source) : list (option Q) := List.map logWt trace.

End Spec.

Section Retry.
Context `{Clustering}.

(** "the caller must loop, re-invoking the sampler with the updated call
    count, until a returned point's logL exceeds constraint, before
    accepting it": [retried pts constraint c rs s n rs'] when the calls
    started with count [c] and draws [rs] end with the accepted point [s],
    the count [n] and the unread draws [rs']. *)
Inductive retried (pts : list Source) (constraint : Q)
  : Z -> list Q -> Source -> Z -> list Q -> Prop :=
| retried_accept c rs s n rs' :
    Clustered_Sampler_sample pts constraint 1 c rs = Ret ((s, n), rs') ->
    constraint < logL s ->
    retried pts constraint c rs s n rs'
| retried_again c rs s1 n1 rs1 s n rs' :
    Clustered_Sampler_sample pts constraint 1 c rs = Ret ((s1, n1), rs1) ->
    ~ constraint < logL s1 ->
    retried pts constraint n1 rs1 s n rs' ->
    retried pts constraint c rs s n rs'.

End Retry.

Section Replacement.
Context `{Numerics} `{Model} `{Clustering}.

(** How an iteration replaces the worst point, by strategy. *)
Definition replaced (self : nest.Nested_Sampler.t) (constraint : Q) (act1 : list Source)
    (st st' : nest.Nested_Sampler.locals) : Prop :=
  (nest.Nested_Sampler.sample self <> "metropolis"%string /\
   nest.Nested_Sampler.sample self <> "clustered_ellipsoidal"%string /\
   nest.Nested_Sampler.self_active_samples st' = act1 /\
   nest.Nested_Sampler.self_no_likelihood st' = nest.Nested_Sampler.self_no_likelihood st)
  \/ (nest.Nested_Sampler.sample self = "metropolis"%string /\
      exists obj updated rsa rsb (j : nat),
        In obj act1 /\
        nest.Metropolis_sampler.sample
          (nest.Metropolis_sampler.init obj constraint (nest.Nested_Sampler.self_no_likelihood st)) rsa
        = Ret ((updated, nest.Nested_Sampler.self_no_likelihood st'), rsb) /\
        nest.Nested_Sampler.self_active_samples st' = <[j := updated]> act1)
  \/ (nest.Nested_Sampler.sample self = "clustered_ellipsoidal"%string /\
      exists updated rsa rsb (j : nat),
        Spec.retried act1 constraint (nest.Nested_Sampler.self_no_likelihood st) rsa
          updated (nest.Nested_Sampler.self_no_likelihood st') rsb /\
        nest.Nested_Sampler.self_active_samples st' = <[j := updated]> act1).

End Replacement.

(** The fields of a Source that a pass of the main loop does not assign
    when it weighs the point. *)
Definition coords (s : Source) : Q * Q * Q * Q * Q :=
  (X s, Y s, A s, R s, logL s).

End Spec.

(** ** Relating the two copies of the sampler *)

Module Sim.

Definition omap {T U} (f : T -> U) (o : outcome (T * list Q)) : outcome (U * list Q) :=
  match o with
  | Ret (v, rs) => Ret (f v, rs)
  | Raise e => Raise e
  | Unfinished => Unfinished
  end.

(** The sampler object and the variables of metropolis.py, read as those
    of the copy in nest.py. *)
Definition obj (self : metropolis.Metropolis_sampler.t) : nest.Metropolis_sampler.t :=
  nest.Metropolis_sampler.mk
    (metropolis.Metropolis_sampler.source self)
    (metropolis.Metropolis_sampler.LC self)
    (metropolis.Metropolis_sampler.step self)
    (metropolis.Metropolis_sampler.number self).

Definition vars (st : metropolis.Metropolis_sampler.locals) : nest.Metropolis_sampler.locals :=
  nest.Metropolis_sampler.mkLocals
    (metropolis.Metropolis_sampler.self_step st)
    (metropolis.Metropolis_sampler.self_number st)
    (metropolis.Metropolis_sampler.metro st)
    (metropolis.Metropolis_sampler.new st)
    (metropolis.Metropolis_sampler.count st)
    (metropolis.Metropolis_sampler.hit st)
    (metropolis.Metropolis_sampler.miss st)
    (metropolis.Metropolis_sampler.stepX st)
    (metropolis.Metropolis_sampler.stepY st)
    (metropolis.Metropolis_sampler.stepA st)
    (metropolis.Metropolis_sampler.stepR st)
    (metropolis.Metropolis_sampler.evals st).

End Sim.

(** ** plot.py

    The image functions.  An image is a list of rows, one per y, each a list
    of pixels, one per x.  [plt.imshow], [plt.title] and [plt.show] only
    display and are left out; [np.exp] is [math_exp] applied to every pixel.
    A source of radius 0 makes numpy divide by zero, which gives inf or nan
    and no exception: such sources are outside the model. *)

Module plot.
Section Images.
Context `{Numerics}.

(** [np.arange(0, n)]. *)
Definition arange (n : Z) : list Z := range 0 n.

(** [np.zeros((height, width), float)]: [ValueError] on a negative
    dimension. *)
Definition zeros (height width : Z) : M (list (list Q)) :=
  if Z.ltb height 0 || Z.ltb width 0 then raise ValueError
  else ret (repeat (repeat 0 (Z.to_nat width)) (Z.to_nat height)).

(** [a*np.exp(-1*((xx-x0)**2+(yy-y0)**2)/(2*(r**2)))] at the pixel (x, y). *)
Definition bump (x0 y0 a r : Q) (x y : Z) : Q :=
  a * math_exp (-1 * ((inject_Z x - x0) * (inject_Z x - x0)
                      + (inject_Z y - y0) * (inject_Z y - y0))
                / (2 * (r * r))).

(** [z += b], where [b] is broadcast from the sparse grids of [xs] and
    [ys]. *)
Definition add_grid (z : list (list Q)) (xs ys : list Z) (b : Z -> Z -> Q)
  : list (list Q) :=
  zip_with (fun y row => zip_with (fun x v => v + b x y) xs row) ys z.

(** The four entries of a row of [src_array], read in the order in which the
    expression evaluates them: [i[2]], [i[0]], [i[1]], [i[3]]. *)
Definition entries (i : list Q) : M (Q * Q * Q * Q) :=
  a ← getitem i 2;
  x0 ← getitem i 0;
  y0 ← getitem i 1;
  r ← getitem i 3;
  ret (x0, y0, a, r).

(** [for i in src_array: z += ...]. *)
Fixpoint accumulate (src_array : list (list Q)) (xs ys : list Z)
    (z : list (list Q)) : M (list (list Q)) :=
  match src_array with
  | [] => ret z
  | i :: rest =>
      '(x0, y0, a, r) ← entries i;
      accumulate rest xs ys (add_grid z xs ys (bump x0 y0 a r))
  end.

Definition make_source (src_array : list (list Q)) (height width : Z)
  : M (list (list Q)) :=
  let x := arange width in
  let y := arange height in
  z ← zeros height width;
  accumulate src_array x y z.

(** [np.random.uniform(lo, hi)]: the next draw, scaled. *)
Definition uniform (b : Q * Q) : M Q :=
  fun rs => match rs with
            | [] => Unfinished
            | u :: rs' => Ret (fst b + (snd b - fst b) * u, rs')
            end.

(** [for i in range(number_of_sources): z += ...], each pass drawing the
    amplitude, then X, Y and the radius. *)
Fixpoint scatter (n : nat) (x_b y_b a_b r_b : Q * Q) (xs ys : list Z)
    (z : list (list Q)) : M (list (list Q)) :=
  match n with
  | O => ret z
  | S n' =>
      a ← uniform a_b;
      x0 ← uniform x_b;
      y0 ← uniform y_b;
      r ← uniform r_b;
      scatter n' x_b y_b a_b r_b xs ys (add_grid z xs ys (bump x0 y0 a r))
  end.

(** An image of [h] rows of [w] pixels. *)
Definition shaped (h w : nat) (z : list (list Q)) : Prop :=
  length z = h /\ Forall (fun row => length row = w) z.

(** What a row [X, Y, A, R] of [src_array] adds at the pixel (x, y). *)
Definition value (i : list Q) (x y : Z) : Q :=
  bump (List.nth 0 i 0) (List.nth 1 i 0) (List.nth 2 i 0) (List.nth 3 i 0) x y.

(** A row drawn within the four limits. *)
Definition drawn (x_b y_b a_b r_b : Q * Q) (i : list Q) : Prop :=
  exists x0 y0 a r,
    i = [x0; y0; a; r] /\
    Spec.within x0 x_b /\ Spec.within y0 y_b /\
    Spec.within a a_b /\ Spec.within r r_b.

(** The rows [X, Y, A, R] that [n] groups of four draws stand for, each
    group read as [make_random_source] evaluates its expression: the draw of
    the amplitude first, then those of X, of Y and of the radius. *)
Fixpoint rows_of_draws (n : nat) (x_b y_b a_b r_b : Q * Q) (rs : list Q)
  : list (list Q) :=
  match n, rs with
  | S n', ua :: ux :: uy :: ur :: rest =>
      [fst x_b + (snd x_b - fst x_b) * ux;
       fst y_b + (snd y_b - fst y_b) * uy;
       fst a_b + (snd a_b - fst a_b) * ua;
       fst r_b + (snd r_b - fst r_b) * ur]
      :: rows_of_draws n' x_b y_b a_b r_b rest
  | _, _ => []
  end.

(** [make_random_source], with [limits] given as its four pairs. *)
Definition make_random_source (x_b y_b a_b r_b : Q * Q) (width height : Z)
    (number_of_sources : Z) : M (list (list Q)) :=
  let x := arange width in
  let y := arange height in
  z ← zeros height width;
  scatter (length (range 0 number_of_sources)) x_b y_b a_b r_b x y z.

End Images.
End plot.

(** ** More concrete runs *)

Module Cases.

(** A stand-in for [math.exp] that is positive everywhere and below 1 on
    the negative numbers: 1 / (1 - x + x^2 / 2). *)
Definition numerics : Numerics := {|
  math_exp := fun x => 1 / (1 - x + x * x / 2);
  math_log := fun x => x - 1;
  np_logaddexp := fun a b => if lt a b then b else a
|}.

(** The nested sampler of [Demo] with a strategy that the loop does not
    know, and its run: each pass reads one draw. *)
Definition unknown : nest.Nested_Sampler.t :=
  nest.Nested_Sampler.init Demo.ensemble2 2 3 "ellipsoidal" false (1 # 10).

Definition fit_unknown :=
  Eval vm_compute in
    @nest.Nested_Sampler.fit Demo.numerics Demo.model Demo.clustering 0 unknown
      [1 # 2; 1 # 2].

(** A sampler over no point at all. *)
Definition empty : nest.Nested_Sampler.t :=
  nest.Nested_Sampler.init [] 2 3 "metropolis" false (1 # 10).

(** A sampler whose loop makes no pass. *)
Definition idle : nest.Nested_Sampler.t :=
  nest.Nested_Sampler.init Demo.ensemble2 2 1 "metropolis" false (1 # 10).

(** One source at (1, 1) of amplitude 2 and radius 1, on 3 by 2 pixels. *)
Definition one_source : list (list Q) := [[1; 1; 2; 1]].

Definition image :=
  Eval vm_compute in @plot.make_source Demo.numerics one_source 2 3 [].

(** One random source within the limits of the spec, on 3 by 2 pixels, from
    four different draws. *)
Definition four_draws : list Q := [1 # 2; 1 # 4; 3 # 4; 1].

Definition random_image :=
  Eval vm_compute in
    @plot.make_random_source Demo.numerics (0, 200) (0, 200) (1, 14) (2, 9) 3 2 1
      four_draws.

End Cases.

(** * Properties *)

(** ** The monad and the Python primitives *)

Lemma bind_Ret {T U} (m : M T) (k : T -> M U) rs v rs' :
  (m ≫= k) rs = Ret (v, rs') <->
  exists a rs1, m rs = Ret (a, rs1) /\ k a rs1 = Ret (v, rs').
Proof.
  unfold mbind, M_bind, bind. split.
  - destruct (m rs) as [[a rs1]| |]; try discriminate. eauto.
  - intros (a & rs1 & -> & Hk). exact Hk.
Qed.

Lemma ret_Ret {T} (v v' : T) rs rs' :
  ret v rs = Ret (v', rs') <-> v' = v /\ rs' = rs.
Proof. unfold ret. split; [intros [= <- <-] | intros [-> ->]]; auto. Qed.

Lemma raise_Ret {T} e rs (v : T) rs' : raise e rs = Ret (v, rs') -> False.
Proof. discriminate. Qed.

Lemma truediv_Ret a b rs q rs' :
  truediv a b rs = Ret (q, rs') <->
  Qeq_bool b 0 = false /\ q = a / b /\ rs' = rs.
Proof.
  unfold truediv. destruct (Qeq_bool b 0); split.
  - intros []%raise_Ret.
  - intros [[=] _].
  - intros [-> ->]%ret_Ret. auto.
  - intros (_ & -> & ->). reflexivity.
Qed.

Lemma getitem_Ret {T} (l : list T) i rs v rs' :
  getitem l i rs = Ret (v, rs') -> In v l /\ rs' = rs.
Proof.
  unfold getitem. destruct (Z.ltb _ 0); [intros []%raise_Ret|].
  destruct (l !! _) as [x|] eqn:E; [|intros []%raise_Ret].
  intros [-> ->]%ret_Ret. split; [|reflexivity].
  apply list_elem_of_In. eapply list_elem_of_lookup_2, E.
Qed.

Lemma setitem_Ret {T} (l : list T) i x rs l' rs' :
  setitem l i x rs = Ret (l', rs') ->
  (exists j, l' = <[j := x]> l) /\ rs' = rs.
Proof.
  unfold setitem. destruct (Z.ltb _ 0); [intros []%raise_Ret|].
  destruct (Nat.ltb _ _); [|intros []%raise_Ret].
  intros [-> ->]%ret_Ret. eauto.
Qed.

Lemma lt_iff a b : lt a b = true <-> a < b.
Proof.
  unfold lt. rewrite Qlt_alt. destruct (a ?= b); split; congruence.
Qed.

Lemma lt_false_iff a b : lt a b = false <-> b <= a.
Proof.
  rewrite <- not_true_iff_false, lt_iff. split.
  - apply Qnot_lt_le.
  - apply Qle_not_lt.
Qed.

Lemma gt_iff a b : gt a b = true <-> b < a.
Proof. apply lt_iff. Qed.

Lemma gt_false_iff a b : gt a b = false <-> a <= b.
Proof. apply lt_false_iff. Qed.

(** Peel the next statement off a run that returned. *)
Ltac next H :=
  let a := fresh "a" in
  let rs := fresh "rs" in
  let E := fresh "E" in
  apply bind_Ret in H as (a & rs & E & H).

(** Take a run that returned apart, statement by statement. *)
Ltac unravel :=
  repeat match goal with
    | H : (_ ≫= _) _ = Ret _ |- _ => apply bind_Ret in H as (? & ? & ? & H)
    | H : ret _ _ = Ret _ |- _ => apply ret_Ret in H as [? ?]; subst
    | H : raise _ _ = Ret _ |- _ => destruct (raise_Ret _ _ _ _ H)
    | H : truediv _ _ _ = Ret _ |- _ => apply truediv_Ret in H as (? & ? & ?); subst
    | H : getitem _ _ _ = Ret _ |- _ => apply getitem_Ret in H as [? ?]; subst
    | H : setitem _ _ _ _ = Ret _ |- _ => apply setitem_Ret in H as [[? ?] ?]; subst
    | H : (let '(_, _) := ?x in _) _ = Ret _ |- _ => destruct x
    | H : (_, _) = (_, _) |- _ => injection H as ? ?; subst
    end.

Ltac done_ret H :=
  let E := fresh "E" in
  apply ret_Ret in H as [E ->]; try subst.

(** ** The sampler of metropolis.py *)

Section MetropolisFacts.
Context `{Numerics} `{Model}.
Import metropolis.Metropolis_sampler.

Lemma bord_of_set_logL s v : bord_of (set_logL s v) = bord_of s.
Proof. reflexivity. Qed.

Lemma outside_false v b : outside v b = false <-> Spec.within v b.
Proof.
  unfold outside, Spec.within.
  rewrite orb_false_iff, gt_false_iff, lt_false_iff. tauto.
Qed.

Lemma bord_of_false s : bord_of s = false <-> Spec.in_bounds s.
Proof.
  unfold bord_of, Spec.in_bounds.
  rewrite !orb_false_iff, !outside_false. tauto.
Qed.

(** The candidate loop only returns a point that passed the four tests; it
    leaves logL and logWt of [new] alone and reads a positive multiple of
    four draws. *)
Lemma propose_Ret m sX sY sA sR rs :
  forall n n' rs',
    propose m n sX sY sA sR rs = Ret (n', rs') ->
    bord_of n' = false /\ logL n' = logL n /\ logWt n' = logWt n /\
    exists k, length rs = (4 * S k + length rs')%nat.
Proof.
  induction rs as [rs IH] using (induction_ltof1 _ (@length Q)).
  intros n n' rs'.
  destruct rs as [|u1 [|u2 [|u3 [|u4 rs1]]]]; try discriminate.
  cbn [propose].
  match goal with |- context [bord_of ?c] => set (cand := c) end.
  destruct (bord_of cand) eqn:Hb.
  - intros Hp. apply IH in Hp; [|unfold ltof; simpl; lia].
    destruct Hp as (Hb' & HL & HW & k & Hk).
    repeat split; auto. exists (S k). simpl. rewrite Hk. lia.
  - intros [= <- <-]. repeat split; auto. exists O. simpl. lia.
Qed.

(** What one pass of the 20-step loop does. *)
Lemma body_Ret self st rs st' rs' :
  body self st rs = Ret (st', rs') ->
  let n := new st' in
  let accepted := gt (logL n) (LC self) in
  bord_of n = false /\
  logL n = log_likelihood
             (mkSource (X n) (Y n) (A n) (R n) (logL (new st)) (logWt (new st))) /\
  metro st' = (if accepted then n else metro st) /\
  hit st' = (if accepted then hit st + 1 else hit st)%Z /\
  miss st' = (if accepted then miss st else miss st + 1)%Z /\
  self_number st' = (self_number st + 1)%Z /\
  count st' = (count st + 1)%Z /\
  evals st' = S (evals st) /\
  self_step st' = Spec.adapt (self_step st) (hit st') (miss st') /\
  stepX st' = self_step st' /\
  stepY st' = Spec.stepDim (self_step st') getPrior_Y /\
  stepA st' = Spec.stepDim (self_step st') getPrior_A /\
  stepR st' = Spec.stepDim (self_step st') getPrior_R /\
  (length rs' < length rs)%nat.
Proof.
  unfold body. intros Hrun.
  next Hrun. apply propose_Ret in E as (Hb & HL & HW & k & Hk).
  set (n := set_logL a (log_likelihood a)) in *.
  assert (Hn : logL n = log_likelihood
             (mkSource (X n) (Y n) (A n) (R n) (logL (new st)) (logWt (new st)))).
  { subst n. destruct a; simpl in *. subst. reflexivity. }
  assert (Hlen : (length rs0 < length rs)%nat) by lia.
  clear Hk HL HW.
  destruct (gt (logL n) (LC self)) eqn:Hacc.
  - next Hrun. next Hrun. next Hrun. done_ret Hrun. cbn [new metro hit miss
      self_number count evals self_step stepX stepY stepA stepR].
    rewrite Hacc.
    apply truediv_Ret in E1 as (_ & -> & ->).
    unfold Spec.adapt, Spec.stepDim.
    destruct (Z.gtb_spec (hit st + 1) (miss st)) as [Hgt|Hle].
    + next E. apply truediv_Ret in E1 as (_ & -> & ->). done_ret E.
      assert (Z.ltb (hit st + 1) (miss st) = false) as Hlt by lia.
      rewrite Hlt in E0. done_ret E0.
      assert (Z.ltb (miss st) (hit st + 1) = true) as -> by lia.
      repeat split; auto.
    + done_ret E.
      assert (Z.ltb (miss st) (hit st + 1) = false) as -> by lia.
      destruct (Z.ltb_spec (hit st + 1) (miss st)) as [Hlt|Hge].
      * next E0. apply truediv_Ret in E as (_ & -> & ->).
        apply truediv_Ret in E0 as (_ & -> & ->).
        repeat split; auto.
      * done_ret E0. repeat split; auto.
  - next Hrun. next Hrun. next Hrun. done_ret Hrun. cbn [new metro hit miss
      self_number count evals self_step stepX stepY stepA stepR].
    rewrite Hacc.
    apply truediv_Ret in E1 as (_ & -> & ->).
    unfold Spec.adapt, Spec.stepDim.
    destruct (Z.gtb_spec (hit st) (miss st + 1)) as [Hgt|Hle].
    + next E. apply truediv_Ret in E1 as (_ & -> & ->). done_ret E.
      assert (Z.ltb (hit st) (miss st + 1) = false) as Hlt by lia.
      rewrite Hlt in E0. done_ret E0.
      assert (Z.ltb (miss st + 1) (hit st) = true) as -> by lia.
      repeat split; auto.
    + done_ret E.
      assert (Z.ltb (miss st + 1) (hit st) = false) as -> by lia.
      destruct (Z.ltb_spec (hit st) (miss st + 1)) as [Hlt|Hge].
      * next E0. apply truediv_Ret in E as (_ & -> & ->).
        apply truediv_Ret in E0 as (_ & -> & ->).
        repeat split; auto.
      * done_ret E0. repeat split; auto.
Qed.

End MetropolisFacts.

Section MetropolisRuns.
Context `{Numerics} `{Model}.
Import metropolis.Metropolis_sampler.

(** An invariant of the passes is an invariant of the loop, which is left
    only when [count < 20] fails. *)
Lemma loop_invariant self (P : locals -> Prop) :
  (forall st rs st' rs',
      P st -> (count st < 20)%Z -> body self st rs = Ret (st', rs') -> P st') ->
  forall passes st rs st' rs',
    P st -> loop passes self st rs = Ret (st', rs') ->
    P st' /\ (20 <= count st')%Z.
Proof.
  intros Hstep. induction passes as [|p IH]; intros st rs st' rs' HP; cbn [loop];
    destruct (Z.ltb_spec (count st) 20) as [Hlt|Hge].
  - discriminate.
  - intros [-> ->]%ret_Ret. auto.
  - intros Hrun. next Hrun. eapply IH; [|exact Hrun]. eapply Hstep; eauto.
  - intros [-> ->]%ret_Ret. auto.
Qed.

(** The bound of 20 passes is never what stops the loop of [sample]. *)
Lemma loop_passes self p st rs :
  (0 <= count st)%Z -> (Z.to_nat (20 - count st) <= p)%nat ->
  loop (S p) self st rs = loop p self st rs.
Proof.
  revert st rs. induction p as [|p IH]; intros st rs Hc0 Hp.
  - cbn [loop]. destruct (Z.ltb_spec (count st) 20); [lia|reflexivity].
  - change (loop (S (S p)) self st rs)
      with ((if Z.ltb (count st) 20
             then st' ← body self st; loop (S p) self st'
             else ret st) rs).
    change (loop (S p) self st rs)
      with ((if Z.ltb (count st) 20
             then st' ← body self st; loop p self st'
             else ret st) rs).
    destruct (Z.ltb_spec (count st) 20) as [Hlt|Hge]; [|reflexivity].
    unfold mbind, M_bind, bind.
    destruct (body self st rs) as [[st' rs']| |] eqn:Hb; try reflexivity.
    apply body_Ret in Hb. cbv zeta in Hb.
    destruct Hb as (_ & _ & _ & _ & _ & _ & Hc & _).
    apply IH; lia.
Qed.

(** The state in which the loop of [sample] starts. *)
Lemma sample_run_Ret self rs st' rs' :
  sample_run self rs = Ret (st', rs') ->
  exists st0,
    loop 20 self st0 rs = Ret (st', rs') /\
    metro st0 = source self /\ count st0 = 0%Z /\
    self_number st0 = (number self + 1)%Z /\ evals st0 = O /\
    hit st0 = 0%Z /\ miss st0 = 0%Z.
Proof.
  unfold sample_run. intros Hrun. next Hrun.
  apply truediv_Ret in E as (_ & -> & ->).
  eexists. split; [exact Hrun|]. repeat split.
Qed.

(** The counters at the end of [sample]: twenty passes, one likelihood
    call in each, and the call count raised by twenty-one. *)
Lemma sample_run_counters self rs st' rs' :
  sample_run self rs = Ret (st', rs') ->
  count st' = 20%Z /\ evals st' = 20%nat /\
  self_number st' = (number self + 21)%Z /\
  (hit st' + miss st' = 20)%Z.
Proof.
  intros (st0 & Hloop & _ & Hc & Hn & He & Hh & Hm)%sample_run_Ret.
  apply (loop_invariant self
           (fun st => (0 <= count st <= 20)%Z /\
                      evals st = Z.to_nat (count st) /\
                      self_number st = (number self + 1 + count st)%Z /\
                      (hit st + miss st = count st)%Z)) in Hloop.
  - destruct Hloop as ((Hr & Hev & Hnum & Hhm) & Hge).
    assert (count st' = 20%Z) as Hc' by lia.
    rewrite Hc' in *. repeat split; auto; lia.
  - intros st rs1 st1 rs2 (Hr & Hev & Hnum & Hhm) Hlt Hb.
    apply body_Ret in Hb. cbv zeta in Hb.
    destruct Hb as (_ & _ & _ & Hh' & Hm' & Hn' & Hc' & He' & _).
    rewrite Hc', He', Hn'. repeat split; try lia.
    rewrite Hh', Hm'. destruct (gt _ _); lia.
  - rewrite Hc, Hn, He, Hh, Hm. repeat split; lia.
Qed.

(** The chain ends on its seed or on a candidate that passed the box test
    and beat the constraint. *)
Lemma sample_run_metro self rs st' rs' :
  sample_run self rs = Ret (st', rs') ->
  metro st' = source self \/
  (LC self < logL (metro st') /\ Spec.in_bounds (metro st')).
Proof.
  intros (st0 & Hloop & Hm & _)%sample_run_Ret.
  apply (loop_invariant self
           (fun st => metro st = source self \/
                      (LC self < logL (metro st) /\ Spec.in_bounds (metro st))))
    in Hloop; [tauto| |auto].
  intros st rs1 st1 rs2 HP _ Hb.
  apply body_Ret in Hb. cbv zeta in Hb.
  destruct Hb as (Hbord & _ & Hmetro & _).
  rewrite Hmetro. destruct (gt _ _) eqn:Hacc; [|exact HP].
  right. split; [apply gt_iff, Hacc | apply bord_of_false, Hbord].
Qed.

End MetropolisRuns.

(** ** The copy of the sampler in nest.py *)

Section Copies.
Context `{Numerics} `{Model}.

Lemma propose_same m n sX sY sA sR rs :
  nest.Metropolis_sampler.propose m n sX sY sA sR rs
  = metropolis.Metropolis_sampler.propose m n sX sY sA sR rs.
Proof. reflexivity. Qed.

Lemma body_same self st rs :
  nest.Metropolis_sampler.body (Sim.obj self) (Sim.vars st) rs
  = Sim.omap Sim.vars (metropolis.Metropolis_sampler.body self st rs).
Proof.
  unfold nest.Metropolis_sampler.body, metropolis.Metropolis_sampler.body.
  unfold mbind, M_bind, bind, truediv, ret, raise.
  rewrite propose_same. cbn [Sim.vars Sim.obj
    nest.Metropolis_sampler.metro nest.Metropolis_sampler.new
    nest.Metropolis_sampler.stepX nest.Metropolis_sampler.stepY
    nest.Metropolis_sampler.stepA nest.Metropolis_sampler.stepR
    nest.Metropolis_sampler.LC nest.Metropolis_sampler.hit
    nest.Metropolis_sampler.miss nest.Metropolis_sampler.self_step
    nest.Metropolis_sampler.self_number nest.Metropolis_sampler.count
    nest.Metropolis_sampler.evals].
  destruct (metropolis.Metropolis_sampler.propose _ _ _ _ _ _ rs) as [[n rs1]| |];
    try reflexivity.
  destruct (gt _ _); cbn beta iota;
    repeat match goal with
      | |- context [if ?b then _ else _] => destruct b; cbn beta iota
      end; reflexivity.
Qed.

Lemma loop_same self passes :
  forall st rs,
    nest.Metropolis_sampler.loop passes (Sim.obj self) (Sim.vars st) rs
    = Sim.omap Sim.vars (metropolis.Metropolis_sampler.loop passes self st rs).
Proof.
  induction passes as [|p IH]; intros st rs;
    cbn [nest.Metropolis_sampler.loop metropolis.Metropolis_sampler.loop];
    change (nest.Metropolis_sampler.count (Sim.vars st))
      with (metropolis.Metropolis_sampler.count st);
    destruct (Z.ltb _ 20); try reflexivity.
  unfold mbind, M_bind, bind. rewrite body_same.
  destruct (metropolis.Metropolis_sampler.body self st rs) as [[st1 rs1]| |];
    cbn [Sim.omap]; auto.
Qed.

Lemma sample_run_same self rs :
  nest.Metropolis_sampler.sample_run (Sim.obj self) rs
  = Sim.omap Sim.vars (metropolis.Metropolis_sampler.sample_run self rs).
Proof.
  unfold nest.Metropolis_sampler.sample_run, metropolis.Metropolis_sampler.sample_run.
  unfold mbind, M_bind, bind.
  change (nest.Metropolis_sampler.step (Sim.obj self))
    with (metropolis.Metropolis_sampler.step self).
  destruct (truediv _ _ rs) as [[q rs1]| |]; try reflexivity.
  apply (loop_same self 20
           (metropolis.Metropolis_sampler.mkLocals _ _ _ _ _ _ _ _ _ _ _ _)).
Qed.

Lemma sample_same self rs :
  nest.Metropolis_sampler.sample (Sim.obj self) rs
  = metropolis.Metropolis_sampler.sample self rs.
Proof.
  unfold nest.Metropolis_sampler.sample, metropolis.Metropolis_sampler.sample.
  unfold mbind, M_bind, bind. rewrite sample_run_same.
  destruct (metropolis.Metropolis_sampler.sample_run self rs) as [[st rs1]| |];
    reflexivity.
Qed.

End Copies.

(** ** Claims about the Metropolis sampler *)

Section MetropolisClaims.
Context `{Numerics} `{Model}.

(** C9.  The class [Metropolis_sampler] of metropolis.py and its copy at
    the end of nest.py behave alike: from the same seed, constraint, call
    count, prior bounds, likelihood and draws, the two [sample] methods
    return the same Source and the same count, leave the same draws unread,
    and otherwise raise or starve alike. *)
Theorem samplers_agree (seed : Source) (constraint : Q) (c : Z) (rs : list Q) :
  nest.Metropolis_sampler.sample
    (nest.Metropolis_sampler.init seed constraint c) rs
  = metropolis.Metropolis_sampler.sample
      (metropolis.Metropolis_sampler.init seed constraint c) rs.
Proof.
  exact (sample_same (metropolis.Metropolis_sampler.init seed constraint c) rs).
Qed.

Import metropolis.Metropolis_sampler.

(** C3.  A call of [sample] that returns has made exactly 20 passes of its
    loop and exactly one likelihood call in each, 20 in all; the count it
    returns is the incoming count plus 21, one more than the number of
    likelihood calls, because of the increment that precedes the loop.  The
    copy in nest.py returns the same. *)
Theorem sample_counter (seed : Source) (constraint : Q) (c : Z)
    (rs rs' : list Q) (st : locals) :
  sample_run (init seed constraint c) rs = Ret (st, rs') ->
  count st = 20%Z /\ evals st = 20%nat /\
  self_number st = (c + Z.of_nat (evals st) + 1)%Z /\
  sample (init seed constraint c) rs = Ret ((metro st, (c + 21)%Z), rs') /\
  nest.Metropolis_sampler.sample
    (nest.Metropolis_sampler.init seed constraint c) rs
  = Ret ((metro st, (c + 21)%Z), rs').
Proof.
  intros Hrun. pose proof (sample_run_counters _ _ _ _ Hrun) as (Hc & He & Hn & _).
  cbn [number init] in Hn.
  assert (Hs : sample (init seed constraint c) rs = Ret ((metro st, (c + 21)%Z), rs'))
    by (unfold sample, mbind, M_bind, bind; rewrite Hrun, Hn; reflexivity).
  repeat split; auto.
  - rewrite He, Hn. lia.
  - rewrite <- Hs. apply (sample_same (init seed constraint c)).
Qed.

(** C2, amended.  The Source returned by [sample] is the seed itself, or a
    candidate whose logL is strictly above the constraint; so it is not
    below the seed's logL whenever the seed's logL does not exceed the
    constraint.  The copy in nest.py returns the same. *)
Theorem sample_seed_or_above_constraint (seed : Source) (constraint : Q)
    (c : Z) (rs rs' : list Q) (s : Source) (n : Z) :
  sample (init seed constraint c) rs = Ret ((s, n), rs') ->
  (s = seed \/ constraint < logL s) /\
  (logL seed <= constraint -> logL seed <= logL s) /\
  nest.Metropolis_sampler.sample
    (nest.Metropolis_sampler.init seed constraint c) rs = Ret ((s, n), rs').
Proof.
  intros Hs. assert (Hcase : s = seed \/ constraint < logL s).
  { unfold sample in Hs. next Hs. apply ret_Ret in Hs as [[= -> ->] ->].
    apply sample_run_metro in E. cbn [source LC init] in E. tauto. }
  repeat split; auto.
  - intros Hle. destruct Hcase as [->|Hlt]; [apply Qle_refl|].
    apply Qlt_le_weak. eapply Qle_lt_trans; eauto.
  - rewrite <- Hs. apply (sample_same (init seed constraint c)).
Qed.

(** C7.  In every pass, once the accept/reject decision has updated the hit
    and miss counts, the scalar step is multiplied by exp(1/hits) when
    hits > misses, divided by exp(1/misses) when misses > hits, and kept
    when they are equal; the four per-dimension steps are then recomputed
    from it: stepX is the step, and each other one is
    (step / x_upper) (upper - lower) of its dimension. *)
Theorem step_adaptation (self : t) (st st' : locals) (rs rs' : list Q) :
  body self st rs = Ret (st', rs') ->
  let accepted := gt (logL (new st')) (LC self) in
  hit st' = (if accepted then hit st + 1 else hit st)%Z /\
  miss st' = (if accepted then miss st else miss st + 1)%Z /\
  self_step st' = Spec.adapt (self_step st) (hit st') (miss st') /\
  stepX st' = self_step st' /\
  stepY st' = Spec.stepDim (self_step st') getPrior_Y /\
  stepA st' = Spec.stepDim (self_step st') getPrior_A /\
  stepR st' = Spec.stepDim (self_step st') getPrior_R.
Proof.
  intros Hb. apply body_Ret in Hb. cbv zeta in Hb |- *. tauto.
Qed.

End MetropolisClaims.

(** ** The nested sampler *)

Section NestedFacts.
Context `{Numerics} `{Model} `{Clustering}.
Import nest.Nested_Sampler.

Lemma in_bounds_set_logWt s w : Spec.in_bounds (set_logWt s w) <-> Spec.in_bounds s.
Proof. reflexivity. Qed.

(** The survivor loop returns an index of [range(N)] other than the worst
    one, and reads at least one draw. *)
Lemma pick_survivor_Ret N smallest rs :
  forall s rs',
    pick_survivor N smallest rs = Ret (s, rs') ->
    s <> smallest /\ N <> 0%Z /\ (exists a, s = Z.modulo a N) /\
    (length rs' < length rs)%nat.
Proof.
  induction rs as [|u rs IH]; intros s rs'; cbn [pick_survivor]; [discriminate|].
  destruct (Z.eqb_spec N 0) as [|HN]; [discriminate|].
  destruct (Z.eqb_spec (Z.modulo (int (float N * u)) N) smallest) as [Heq|Hne];
    cbn [negb].
  - intros Hp. apply IH in Hp as (? & ? & ? & ?). repeat split; auto.
    simpl. lia.
  - intros [= <- <-]. repeat split; eauto.
Qed.

(** With one active point the only index that can be drawn is 0. *)
Lemma pick_survivor_single rs s rs' : pick_survivor 1 0 rs <> Ret (s, rs').
Proof.
  induction rs as [|u rs IH]; cbn [pick_survivor]; [discriminate|].
  rewrite Z.mod_1_r. exact IH.
Qed.

(** [clustered_sampling] returns what the retries end with. *)
Lemma clustered_sampling_Ret retries pts constraint :
  forall c rs s n rs',
    clustered_sampling retries pts constraint c rs = Ret ((s, n), rs') ->
    Spec.retried pts constraint c rs s n rs'.
Proof.
  induction retries as [|r IH]; intros c rs s n rs' Hrun; cbn [clustered_sampling] in Hrun;
    next Hrun; destruct a as [s1 n1];
    destruct (gt (logL s1) constraint) eqn:Hgt.
  - apply ret_Ret in Hrun as [[= -> ->] ->].
    apply Spec.retried_accept; [exact E | apply gt_iff, Hgt].
  - discriminate.
  - apply ret_Ret in Hrun as [[= -> ->] ->].
    apply Spec.retried_accept; [exact E | apply gt_iff, Hgt].
  - eapply Spec.retried_again; [exact E | | eapply IH, Hrun].
    rewrite <- gt_iff, Hgt. discriminate.
Qed.

Lemma retried_above pts constraint c rs s n rs' :
  Spec.retried pts constraint c rs s n rs' -> constraint < logL s.
Proof. induction 1; auto. Qed.

(** Conversely, what the retries end with is returned once enough
    retries are allowed. *)
Lemma retried_clustered_sampling pts constraint c rs s n rs' :
  Spec.retried pts constraint c rs s n rs' ->
  exists retries, forall r, (retries <= r)%nat ->
    clustered_sampling r pts constraint c rs = Ret ((s, n), rs').
Proof.
  induction 1 as [c rs s n rs' Hcall Hlt|c rs s1 n1 rs1 s n rs' Hcall Hnlt _ [k IH]].
  - exists O. intros r _. destruct r; cbn [clustered_sampling];
      unfold mbind, M_bind, bind; rewrite Hcall;
      apply gt_iff in Hlt; rewrite Hlt; reflexivity.
  - exists (S k). intros r Hr. destruct r as [|r]; [lia|].
    cbn [clustered_sampling]. unfold mbind, M_bind, bind. rewrite Hcall.
    destruct (gt (logL s1) constraint) eqn:Hgt.
    + apply gt_iff in Hgt. contradiction.
    + apply IH. lia.
Qed.

(** What one iteration of the main loop does. *)
Lemma iteration_Ret retries self i st rs st' rs' :
  body retries self i st rs = Ret (st', rs') ->
  exists w0 (j : nat),
    let worst := set_logWt w0 (self_log_width st + logL w0) in
    In w0 (self_active_samples st) /\
    self_posterior_inferences st' = self_posterior_inferences st ++ [worst] /\
    self_log_evidence st'
    = np_logaddexp (self_log_evidence st) (self_log_width st + logL w0) /\
    Qeq_bool (float (no_active_samples self)) 0 = false /\
    self_log_width st' = self_log_width st - 1 / float (no_active_samples self) /\
    iteration st' = Some i /\
    Spec.replaced self (logL w0) (<[j := worst]> (self_active_samples st)) st st'.
Proof.
  unfold body. intros Hrun.
  next Hrun. rename a into smallest. clear E.
  next Hrun. rename a into w0. apply getitem_Ret in E as [Hin ->].
  next Hrun. rename a into act1. apply setitem_Ret in E as [[j ->] ->].
  next Hrun. clear E. next Hrun. clear E.
  next Hrun. rename a1 into survivor. clear E.
  exists w0, j. cbv zeta.
  destruct (String.eqb_spec (sample self) "metropolis") as [Hm|Hm].
  - assert (String.eqb (sample self) "clustered_ellipsoidal" = false) as Hc
      by (rewrite Hm; reflexivity).
    rewrite Hc in Hrun. unfold metropolis_sampling in Hrun. unravel.
    unfold Spec.replaced.
    cbn [self_posterior_inferences self_log_evidence self_log_width
         iteration self_active_samples self_no_likelihood].
    repeat split; auto.
    right; left. split; [exact Hm|]. do 5 eexists. eauto.
  - destruct (String.eqb_spec (sample self) "clustered_ellipsoidal") as [Hc|Hc];
      unravel; unfold Spec.replaced;
      cbn [self_posterior_inferences self_log_evidence self_log_width
           iteration self_active_samples self_no_likelihood];
      repeat split; auto.
    right; right. split; [exact Hc|]. do 4 eexists. split; [|reflexivity].
    eapply clustered_sampling_Ret. eassumption.
Qed.

End NestedFacts.

(** ** The main loop *)

Lemma range_length lo hi : length (range lo hi) = Z.to_nat (hi - lo).
Proof. unfold range. rewrite List.length_map, List.length_seq. reflexivity. Qed.

Lemma range_cons lo hi :
  (lo < hi)%Z -> range lo hi = lo :: range (lo + 1) hi.
Proof.
  intros Hlt. unfold range.
  replace (Z.to_nat (hi - lo)) with (S (Z.to_nat (hi - (lo + 1)))) by lia.
  cbn [List.seq List.map]. f_equal; [lia|].
  rewrite <- List.seq_shift, List.map_map.
  apply List.map_ext. intros i. lia.
Qed.

Lemma range_last lo hi d :
  (lo < hi)%Z -> List.last (range lo hi) d = (hi - 1)%Z.
Proof.
  intros Hlt. unfold range.
  replace (Z.to_nat (hi - lo)) with (Z.to_nat (hi - lo - 1) + 1)%nat by lia.
  rewrite List.seq_app, List.map_app. cbn [List.seq List.map].
  rewrite List.last_last. lia.
Qed.

(** A property of the state and of the indices already visited that every
    pass carries over holds when the loop returns. *)
Lemma for_each_invariant {S} (body : Z -> S -> M S) (P : list Z -> S -> Prop) :
  (forall visited i st rs st' rs',
      P visited st -> body i st rs = Ret (st', rs') -> P (visited ++ [i]) st') ->
  forall l visited st rs st' rs',
    P visited st -> for_each l body st rs = Ret (st', rs') -> P (visited ++ l) st'.
Proof.
  intros Hstep. induction l as [|i l IH]; intros visited st rs st' rs' HP;
    cbn [for_each].
  - intros [-> ->]%ret_Ret. rewrite List.app_nil_r. exact HP.
  - unfold bind. destruct (body i st rs) as [[st1 rs1]| |] eqn:Hb; try discriminate.
    intros Hrest.
    replace (visited ++ i :: l) with ((visited ++ [i]) ++ l)
      by (rewrite <- List.app_assoc; reflexivity).
    eapply IH; [|exact Hrest]. eapply Hstep; eauto.
Qed.

Section FitFacts.
Context `{Numerics} `{Model} `{Clustering}.
Import nest.Nested_Sampler.

Lemma log_Ret x rs w rs' :
  log x rs = Ret (w, rs') <-> lt 0 x = true /\ w = math_log x /\ rs' = rs.
Proof.
  unfold log. destruct (lt 0 x); split.
  - intros [-> ->]%ret_Ret. auto.
  - intros (_ & -> & ->). reflexivity.
  - intros []%raise_Ret.
  - intros [[=] _].
Qed.

Lemma fit_run_Ret retries self rs st rs' :
  fit_run retries self rs = Ret (st, rs') <->
  Qeq_bool (float (no_active_samples self)) 0 = false /\
  lt 0 (1 - math_exp (-1 / float (no_active_samples self))) = true /\
  for_each (range 1 (maximum_iterations self)) (body retries self)
    (start self (math_log (1 - math_exp (-1 / float (no_active_samples self))))) rs
  = Ret (st, rs').
Proof.
  unfold fit_run. rewrite bind_Ret. split.
  - intros (d & rs1 & (HN & -> & ->)%truediv_Ret & Hrun).
    apply bind_Ret in Hrun as (w & rs2 & (Hpos & -> & ->)%log_Ret & Hrun).
    auto.
  - intros (HN & Hpos & Hrun). exists (-1 / float (no_active_samples self)), rs.
    split; [apply truediv_Ret; auto|].
    apply bind_Ret. eexists _, rs. split; [apply log_Ret; eauto|exact Hrun].
Qed.

Lemma fit_Ret retries self rs r rs' :
  fit retries self rs = Ret (r, rs') <->
  exists st,
    fit_run retries self rs = Ret (st, rs') /\
    r = {| src := self_active_samples st;
           samples := self_posterior_inferences st;
           logZ := self_log_evidence st;
           Information_ := self_Information st;
           likelihood_calculations := self_no_likelihood st;
           iterations := maximum_iterations self |}.
Proof.
  unfold fit. rewrite bind_Ret. split.
  - intros (st & rs1 & Hrun & [-> ->]%ret_Ret). eauto.
  - intros (st & Hrun & ->). exists st, rs'. split; [exact Hrun|reflexivity].
Qed.

(** The trace grows by one entry per pass, and [iteration] is the index of
    the last pass. *)
Lemma loop_trace retries self l st rs st' rs' :
  for_each l (body retries self) st rs = Ret (st', rs') ->
  length (self_posterior_inferences st')
  = (length (self_posterior_inferences st) + length l)%nat /\
  iteration st' = List.last (List.map Some l) (iteration st).
Proof.
  intros Hrun.
  apply (for_each_invariant (body retries self)
           (fun visited s =>
              length (self_posterior_inferences s)
              = (length (self_posterior_inferences st) + length visited)%nat /\
              iteration s = List.last (List.map Some visited) (iteration st))
           ) with (visited := []) in Hrun.
  - exact Hrun.
  - intros visited i s rs1 s' rs2 [Hlen Hit] Hb.
    apply iteration_Ret in Hb as (w0 & j & _ & Hpost & _ & _ & _ & Hi & _).
    rewrite Hpost, !List.length_app, Hlen. cbn [length]. split; [lia|].
    rewrite List.map_app. cbn [List.map]. rewrite List.last_last. exact Hi.
  - cbn. split; [lia|reflexivity].
Qed.

(** The width is shrunk once in every pass. *)
Lemma loop_width retries self l st rs st' rs' :
  for_each l (body retries self) st rs = Ret (st', rs') ->
  self_log_width st'
  = Nat.iter (length l) (fun w => w - 1 / float (no_active_samples self))
      (self_log_width st).
Proof.
  intros Hrun.
  apply (for_each_invariant (body retries self)
           (fun visited s =>
              self_log_width s
              = Nat.iter (length visited)
                  (fun w => w - 1 / float (no_active_samples self))
                  (self_log_width st))
           ) with (visited := []) in Hrun.
  - exact Hrun.
  - intros visited i s rs1 s' rs2 Hw Hb.
    apply iteration_Ret in Hb as (w0 & j & _ & _ & _ & _ & Hwidth & _).
    rewrite Hwidth, Hw, List.length_app, Nat.add_1_r. reflexivity.
  - reflexivity.
Qed.

(** The evidence is the running [np.logaddexp] of the weights given to the
    discarded points, started from the sentinel. *)
Lemma loop_evidence retries self l st rs st' rs' :
  for_each l (body retries self) st rs = Ret (st', rs') ->
  exists ws,
    length ws = length l /\
    Spec.weights (self_posterior_inferences st')
    = Spec.weights (self_posterior_inferences st) ++ List.map Some ws /\
    self_log_evidence st' = List.fold_left np_logaddexp ws (self_log_evidence st).
Proof.
  intros Hrun.
  apply (for_each_invariant (body retries self)
           (fun visited s =>
              exists ws,
                length ws = length visited /\
                Spec.weights (self_posterior_inferences s)
                = Spec.weights (self_posterior_inferences st) ++ List.map Some ws /\
                self_log_evidence s
                = List.fold_left np_logaddexp ws (self_log_evidence st))
           ) with (visited := []) in Hrun.
  - exact Hrun.
  - intros visited i s rs1 s' rs2 (ws & Hlen & Hws & Hev) Hb.
    apply iteration_Ret in Hb as (w0 & j & _ & Hpost & Hev' & _).
    exists (ws ++ [self_log_width s + logL w0]). repeat split.
    + rewrite !List.length_app, Hlen. reflexivity.
    + unfold Spec.weights in *. rewrite Hpost, !List.map_app, Hws.
      rewrite <- List.app_assoc. reflexivity.
    + rewrite Hev', List.fold_left_app, <- Hev. reflexivity.
  - exists []. cbn. rewrite List.app_nil_r. auto.
Qed.

End FitFacts.

(** ** Claims about the nested sampler *)

Lemma last_map_Some {T} (l : list T) (x : T) (d : option T) :
  List.last (List.map Some (l ++ [x])) d = Some x.
Proof. rewrite List.map_app. cbn [List.map]. apply List.last_last. Qed.

Section NestedClaims.
Context `{Numerics} `{Model} `{Clustering}.
Import nest.Nested_Sampler.

(** C1, as the code has it.  A call of [fit] on a fresh sampler that
    returns has made [maximum_iterations - 1] passes of its loop (none when
    [maximum_iterations] is below 2): the loop variable ends on
    [maximum_iterations - 1], the trace has one entry per pass, that is
    [maximum_iterations - 1] entries, and the mapping reports
    [maximum_iterations] under "iterations", one more than the passes made
    whenever [maximum_iterations] is at least 1. *)
Theorem fit_iterations (retries : nat) (active : list Source) (N maxIter : Z)
    (flag : string) (plot : bool) (conv : Q) (rs rs' : list Q) (st : locals) :
  fit_run retries (init active N maxIter flag plot conv) rs = Ret (st, rs') ->
  length (self_posterior_inferences st) = Z.to_nat (maxIter - 1) /\
  iteration st = (if Z.ltb 1 maxIter then Some (maxIter - 1)%Z else None) /\
  exists r,
    fit retries (init active N maxIter flag plot conv) rs = Ret (r, rs') /\
    samples r = self_posterior_inferences st /\
    iterations r = maxIter.
Proof.
  intros Hrun. pose proof Hrun as (_ & _ & Hloop)%fit_run_Ret.
  apply loop_trace in Hloop as [Hlen Hit].
  cbn [maximum_iterations init start self_posterior_inferences
       posterior_inferences iteration] in Hlen, Hit.
  rewrite range_length in Hlen. cbn [length] in Hlen.
  repeat split; [exact Hlen| |].
  - rewrite Hit. destruct (Z.ltb_spec 1 maxIter) as [Hlt|Hge].
    + rewrite (range_cons 1 maxIter Hlt).
      pose proof (range_last 1 maxIter 0%Z Hlt) as Hlast.
      rewrite (range_cons 1 maxIter Hlt) in Hlast.
      destruct (@exists_last _ (1%Z :: range (1 + 1) maxIter)) as (l & x & Hl);
        [discriminate|].
      rewrite Hl in Hlast |- *. rewrite List.last_last in Hlast.
      rewrite last_map_Some, Hlast. reflexivity.
    + unfold range. replace (Z.to_nat (maxIter - 1)) with O by lia. reflexivity.
  - eexists. split; [apply fit_Ret; eexists; split; [exact Hrun|reflexivity]|].
    split; reflexivity.
Qed.

(** C5, amended.  When [fit] returns after k passes of its loop (k entries
    added to the trace), the width is what k successive subtractions of 1/N
    make of log(1 - exp(-1/N)): a value fixed by N and k, whatever the draws
    and the likelihood values were.  (It is log(1 - exp(-1/N)) - k/N only
    where the subtractions are exact, which in doubles they are not.) *)
Theorem fit_log_width (retries : nat) (self : t) (rs rs' : list Q) (st : locals) :
  fit_run retries self rs = Ret (st, rs') ->
  let N := float (no_active_samples self) in
  let k := (length (self_posterior_inferences st)
            - length (posterior_inferences self))%nat in
  k = Z.to_nat (maximum_iterations self - 1) /\
  self_log_width st
  = Nat.iter k (fun w => w - 1 / N) (math_log (1 - math_exp (-1 / N))).
Proof.
  intros (_ & _ & Hloop)%fit_run_Ret. cbv zeta.
  pose proof (loop_trace _ _ _ _ _ _ _ Hloop) as [Hlen _].
  apply loop_width in Hloop.
  cbn [start self_posterior_inferences self_log_width] in Hlen, Hloop.
  rewrite Hlen. rewrite range_length in *.
  replace (length (posterior_inferences self) + Z.to_nat (maximum_iterations self - 1)
           - length (posterior_inferences self))%nat
    with (Z.to_nat (maximum_iterations self - 1)) by lia.
  split; [reflexivity|exact Hloop].
Qed.

(** C6.  Whenever [clustered_sampling] returns a point, its logL is
    strictly above the constraint, and the point, the count and the unread
    draws are those of the last of a series of calls of the clustered
    sampler, each started with the count the one before returned, of which
    only the last returned a point above the constraint. *)
Theorem clustered_sampling_above (retries : nat) (pts : list Source)
    (constraint : Q) (c n : Z) (rs rs' : list Q) (s : Source) :
  clustered_sampling retries pts constraint c rs = Ret ((s, n), rs') ->
  constraint < logL s /\ Spec.retried pts constraint c rs s n rs'.
Proof.
  intros Hrun%clustered_sampling_Ret. split; [|exact Hrun].
  eapply retried_above, Hrun.
Qed.

Lemma retried_last pts constraint c rs s n rs' :
  Spec.retried pts constraint c rs s n rs' ->
  exists c1 rs1, Clustered_Sampler_sample pts constraint 1 c1 rs1 = Ret ((s, n), rs').
Proof. induction 1; eauto. Qed.

(** The points of the ensemble and of the trace stay in bounds over the
    loop, provided the clustered sampler, where it is the strategy, returns
    points in bounds. *)
Lemma loop_in_bounds retries self l st rs st' rs' :
  (sample self = "clustered_ellipsoidal"%string ->
   forall pts constraint e c rs1 s n rs2,
     Clustered_Sampler_sample pts constraint e c rs1 = Ret ((s, n), rs2) ->
     Spec.in_bounds s) ->
  Forall Spec.in_bounds (self_active_samples st) ->
  Forall Spec.in_bounds (self_posterior_inferences st) ->
  for_each l (body retries self) st rs = Ret (st', rs') ->
  Forall Spec.in_bounds (self_active_samples st') /\
  Forall Spec.in_bounds (self_posterior_inferences st').
Proof.
  intros Hclust Hact Hpost Hrun.
  apply (for_each_invariant (body retries self)
           (fun _ s =>
              Forall Spec.in_bounds (self_active_samples s) /\
              Forall Spec.in_bounds (self_posterior_inferences s))
           ) with (visited := []) in Hrun; [exact Hrun| |auto].
  intros _ i s rs1 s' rs2 [Ha Hp] Hb.
  apply iteration_Ret in Hb as (w0 & j & Hin & Hpost' & _ & _ & _ & _ & Hrep).
  cbv zeta in *.
  assert (Hw0 : Spec.in_bounds w0)
    by exact (proj1 (List.Forall_forall Spec.in_bounds _) Ha w0 Hin).
  assert (Hact1 : Forall Spec.in_bounds
                    (<[j := set_logWt w0 (self_log_width s + logL w0)]>
                       (self_active_samples s)))
    by (apply Forall_insert; [exact Ha | apply in_bounds_set_logWt, Hw0]).
  split.
  - destruct Hrep as [(_ & _ & -> & _)|[(_ & Hm)|(Hc & Hm)]].
    + exact Hact1.
    + destruct Hm as (obj & updated & rsa & rsb & j' & Hobj & Hs & ->).
      apply Forall_insert; [exact Hact1|].
      change (nest.Metropolis_sampler.init obj (logL w0) (self_no_likelihood s))
        with (Sim.obj (metropolis.Metropolis_sampler.init obj (logL w0)
                         (self_no_likelihood s))) in Hs.
      rewrite sample_same in Hs.
      unfold metropolis.Metropolis_sampler.sample in Hs.
      next Hs. apply ret_Ret in Hs as [[= -> _] _].
      apply sample_run_metro in E as [->|[_ Hb]]; [|exact Hb].
      exact (proj1 (List.Forall_forall Spec.in_bounds _) Hact1 obj Hobj).
    + destruct Hm as (updated & rsa & rsb & j' & Hret & ->).
      apply Forall_insert; [exact Hact1|].
      apply retried_last in Hret as (c1 & rs3 & Hcall).
      eapply Hclust; eauto.
  - rewrite Hpost'. apply Forall_app. split; [exact Hp|].
    constructor; [apply in_bounds_set_logWt, Hw0|constructor].
Qed.

(** C8.  If every Source of the initial ensemble has its four coordinates
    within the prior bounds, so has every Source of the ensemble and of the
    trace that [fit] returns.  With the Metropolis strategy nothing else is
    assumed: the candidate loop only lets through a point that passed the
    four bound tests, and only such a point replaces the chain's state.
    With the clustered strategy, the points are those of the clustered
    sampler, assumed in bounds. *)
Theorem fit_in_bounds (retries : nat) (active : list Source) (N maxIter : Z)
    (flag : string) (plot : bool) (conv : Q) (rs rs' : list Q) (r : result) :
  (flag = "clustered_ellipsoidal"%string ->
   forall pts constraint e c rs1 s n rs2,
     Clustered_Sampler_sample pts constraint e c rs1 = Ret ((s, n), rs2) ->
     Spec.in_bounds s) ->
  Forall Spec.in_bounds active ->
  fit retries (init active N maxIter flag plot conv) rs = Ret (r, rs') ->
  Forall Spec.in_bounds (src r) /\ Forall Spec.in_bounds (samples r).
Proof.
  intros Hclust Hact (st & (_ & _ & Hloop)%fit_run_Ret & ->)%fit_Ret.
  cbn [src samples].
  eapply loop_in_bounds; [| | |exact Hloop]; cbn; auto.
Qed.

End NestedClaims.

Section Termination.
Context `{Numerics} `{Model} `{Clustering}.
Import nest.Nested_Sampler.

(** A pass over an ensemble of one point with N = 1 never gets past the
    choice of the survivor. *)
Lemma iteration_single retries self i st rs st' rs' :
  no_active_samples self = 1%Z ->
  (exists x, LogL st = [x]) ->
  body retries self i st rs <> Ret (st', rs').
Proof.
  intros HN [x HL] Hrun. unfold body in Hrun. rewrite HL, HN in Hrun.
  next Hrun. apply ret_Ret in E as [-> ->]. cbn [argmin_from Z.of_nat] in Hrun.
  do 4 next Hrun. next Hrun.
  exact (pick_survivor_single _ _ _ E3).
Qed.

(** With two points or more, some draw in [0, 1) ends the choice of the
    survivor at once, whatever the worst index is. *)
Lemma pick_survivor_exists N smallest :
  (2 <= N)%Z ->
  exists u, 0 <= u /\ u < 1 /\
    forall rs, exists s,
      pick_survivor N smallest (u :: rs) = Ret (s, rs) /\
      s <> smallest /\ (0 <= s < N)%Z.
Proof.
  intros HN. destruct (Z.eq_dec smallest 0%Z) as [->|Hs].
  - exists (1 # 2).
    split; [unfold Qle; simpl; lia|]. split; [unfold Qlt; simpl; lia|].
    intros rs. exists (N / 2)%Z. cbn [pick_survivor].
    destruct (Z.eqb_spec N 0%Z) as [|_]; [lia|].
    assert (Hint : int (float N * (1 # 2)) = (N / 2)%Z).
    { unfold int, float. cbn [Qmult inject_Z Qnum Qden].
      rewrite Z.mul_1_r. change (1 * 2)%positive with 2%positive.
      apply Z.quot_div_nonneg; lia. }
    rewrite Hint.
    assert (1 <= N / 2 < N)%Z as Hhalf.
    { split; [apply Z.div_le_lower_bound; lia | apply Z.div_lt; lia]. }
    rewrite Z.mod_small by lia.
    destruct (Z.eqb_spec (N / 2)%Z 0%Z) as [|_]; [lia|].
    cbn [negb]. repeat split; lia.
  - exists 0.
    split; [apply Qle_refl|]. split; [unfold Qlt; simpl; lia|].
    intros rs. exists 0%Z. cbn [pick_survivor].
    destruct (Z.eqb_spec N 0%Z) as [|_]; [lia|].
    assert (Hint : int (float N * 0) = 0%Z).
    { unfold int, float. cbn [Qmult inject_Z Qnum Qden].
      rewrite Z.mul_0_r. reflexivity. }
    rewrite Hint, Z.mod_0_l by lia.
    destruct (Z.eqb_spec 0%Z smallest) as [|_]; [congruence|].
    cbn [negb]. repeat split; auto; lia.
Qed.

(** C10.  For an ensemble of N points, [fit] returns only if N is at least
    2 or the loop makes no pass; so for N = 1 and [maximum_iterations] at
    least 2 it returns on no stream of draws: every draw gives the index 0,
    which is the worst index.  For N at least 2 and any worst index, some
    draw in [0, 1) makes the survivor loop exit with an index of the
    ensemble other than the worst one. *)
Theorem fit_needs_two_points :
  (forall retries self rs r rs',
      Z.of_nat (length (active_samples self)) = no_active_samples self ->
      fit retries self rs = Ret (r, rs') ->
      (2 <= no_active_samples self)%Z \/ (maximum_iterations self < 2)%Z) /\
  (forall retries self rs r rs',
      length (active_samples self) = 1%nat ->
      no_active_samples self = 1%Z ->
      (2 <= maximum_iterations self)%Z ->
      fit retries self rs <> Ret (r, rs')) /\
  (forall N smallest,
      (2 <= N)%Z ->
      exists u, 0 <= u /\ u < 1 /\
        forall rs, exists s,
          pick_survivor N smallest (u :: rs) = Ret (s, rs) /\
          s <> smallest /\ (0 <= s < N)%Z).
Proof.
  assert (Hmain : forall retries self rs r rs',
      Z.of_nat (length (active_samples self)) = no_active_samples self ->
      fit retries self rs = Ret (r, rs') ->
      (2 <= no_active_samples self)%Z \/ (maximum_iterations self < 2)%Z).
  { intros retries self rs r rs' Hlen (st & (HN & _ & Hloop)%fit_run_Ret & _)%fit_Ret.
    destruct (Z.le_gt_cases 2 (no_active_samples self)) as [|Hsmall]; [left; assumption|].
    right. destruct (Z.lt_ge_cases (maximum_iterations self) 2) as [|Hmax]; [assumption|].
    exfalso.
    assert (no_active_samples self = 0 \/ no_active_samples self = 1)%Z
      as [Hzero|H1'] by lia.
    - rewrite Hzero in HN. discriminate HN.
    - rewrite range_cons in Hloop by lia. cbn [for_each] in Hloop.
      unfold bind in Hloop.
      destruct (body retries self 1 _ rs) as [[st1 rs1]| |] eqn:Hb; try discriminate.
      apply iteration_single in Hb; [exact Hb|exact H1'|].
      cbn [start LogL].
      destruct (active_samples self) as [|a [|b l]]; cbn [length] in Hlen; try lia.
      eexists. reflexivity. }
  split; [exact Hmain|]. split; [|apply pick_survivor_exists].
  intros retries self rs r rs' Hlen HN Hmax Hrun.
  apply Hmain in Hrun; [lia|]. rewrite Hlen, HN. reflexivity.
Qed.

End Termination.

(** ** The concrete runs *)

Lemma run_downhill_eq :
  @metropolis.Metropolis_sampler.sample_run Demo.numerics Demo.model
    (metropolis.Metropolis_sampler.init Demo.seed (- (1000000)) 2)
    Demo.draws_downhill
  = Demo.run_downhill.
Proof. vm_compute. reflexivity. Qed.

Lemma sample_downhill_eq :
  @metropolis.Metropolis_sampler.sample Demo.numerics Demo.model
    (metropolis.Metropolis_sampler.init Demo.seed (- (1000000)) 2)
    Demo.draws_downhill
  = Demo.sample_downhill.
Proof. vm_compute. reflexivity. Qed.

Lemma first_pass_eq :
  @metropolis.Metropolis_sampler.body Demo.numerics Demo.model Demo.sampler
    Demo.entry [3 # 4; 1 # 2; 1 # 2; 1 # 2]
  = Demo.first_pass.
Proof. vm_compute. reflexivity. Qed.

Lemma run_nested_eq :
  @nest.Nested_Sampler.fit_run Demo.numerics Demo.model Demo.clustering 0
    (nest.Nested_Sampler.init Demo.ensemble2 2 3 "metropolis" false (1 # 10))
    (Demo.draws_still 162)
  = Demo.run_nested.
Proof. vm_compute. reflexivity. Qed.

Lemma fit_nested_eq :
  @nest.Nested_Sampler.fit Demo.numerics Demo.model Demo.clustering 0
    (nest.Nested_Sampler.init Demo.ensemble2 2 3 "metropolis" false (1 # 10))
    (Demo.draws_still 162)
  = Demo.fit_nested.
Proof. vm_compute. reflexivity. Qed.

Lemma run_clustered_eq :
  @nest.Nested_Sampler.clustered_sampling Demo.clustering 1 Demo.ensemble2
    (- (100)) 2 [1 # 4; 1 # 2]
  = Demo.run_clustered.
Proof. vm_compute. reflexivity. Qed.

Lemma ensemble2_in_bounds : Forall (@Spec.in_bounds Demo.model) Demo.ensemble2.
Proof.
  repeat constructor; unfold Qle; simpl; lia.
Qed.

(** The run from the top of the bump: twenty passes, the count goes from 2
    to 23. *)
Lemma sample_counter_witness :
  exists st rs',
    @metropolis.Metropolis_sampler.sample_run Demo.numerics Demo.model
      (metropolis.Metropolis_sampler.init Demo.seed (- (1000000)) 2)
      Demo.draws_downhill = Ret (st, rs') /\
    metropolis.Metropolis_sampler.count st = 20%Z /\
    metropolis.Metropolis_sampler.evals st = 20%nat /\
    metropolis.Metropolis_sampler.self_number st = 23%Z.
Proof.
  eexists _, _. split; [exact run_downhill_eq|].
  pose proof (@sample_counter Demo.numerics Demo.model _ _ _ _ _ _ run_downhill_eq)
    as (Hc & He & Hn & _).
  split; [exact Hc|]. split; [exact He|].
  rewrite He in Hn. exact Hn.
Defined.

Lemma sample_seed_or_above_constraint_witness :
  exists s n rs',
    @metropolis.Metropolis_sampler.sample Demo.numerics Demo.model
      (metropolis.Metropolis_sampler.init Demo.seed (- (1000000)) 2)
      Demo.draws_downhill = Ret ((s, n), rs') /\
    (s = Demo.seed \/ - (1000000) < logL s).
Proof.
  eexists _, _, _. split; [exact sample_downhill_eq|].
  exact (proj1 (@sample_seed_or_above_constraint Demo.numerics Demo.model
                  _ _ _ _ _ _ _ sample_downhill_eq)).
Defined.

(** C2 as stated fails.  From the seed at the top of the bump (logL 0) and
    the constraint -1000000, the first candidate is at X = 104, with logL
    -16; it is accepted, the later candidates stay on it, and [sample]
    returns it: below the seed. *)
Lemma sample_can_end_below_seed :
  ~ (forall (numerics : Numerics) (model : Model) (seed : Source)
       (constraint : Q) (c : Z) (rs rs' : list Q) (s : Source) (n : Z),
        metropolis.Metropolis_sampler.sample
          (metropolis.Metropolis_sampler.init seed constraint c) rs
        = Ret ((s, n), rs') ->
        logL seed <= logL s).
Proof.
  intros Hclaim.
  pose proof (Hclaim Demo.numerics Demo.model _ _ _ _ _ _ _ sample_downhill_eq)
    as Hle.
  vm_compute in Hle. apply Hle. reflexivity.
Qed.

(** The first pass of that run: the candidate is accepted, the hits lead,
    the step grows. *)
Lemma step_adaptation_witness :
  exists st' rs',
    @metropolis.Metropolis_sampler.body Demo.numerics Demo.model Demo.sampler
      Demo.entry [3 # 4; 1 # 2; 1 # 2; 1 # 2] = Ret (st', rs') /\
    metropolis.Metropolis_sampler.stepX st'
    = metropolis.Metropolis_sampler.self_step st' /\
    metropolis.Metropolis_sampler.self_step st'
    = @Spec.adapt Demo.numerics 8 (metropolis.Metropolis_sampler.hit st')
        (metropolis.Metropolis_sampler.miss st').
Proof.
  eexists _, _. split; [exact first_pass_eq|].
  pose proof (@step_adaptation Demo.numerics Demo.model _ _ _ _ _ first_pass_eq)
    as (_ & _ & Hs & Hx & _).
  split; [exact Hx|exact Hs].
Defined.

(** The nested run: [max_iter = 3] gives two passes and two trace entries. *)
Lemma fit_iterations_witness :
  exists st rs',
    @nest.Nested_Sampler.fit_run Demo.numerics Demo.model Demo.clustering 0
      (nest.Nested_Sampler.init Demo.ensemble2 2 3 "metropolis" false (1 # 10))
      (Demo.draws_still 162) = Ret (st, rs') /\
    length (nest.Nested_Sampler.self_posterior_inferences st) = 2%nat /\
    nest.Nested_Sampler.iteration st = Some 2%Z.
Proof.
  eexists _, _. split; [exact run_nested_eq|].
  pose proof (@fit_iterations Demo.numerics Demo.model Demo.clustering
                _ _ _ _ _ _ _ _ _ _ run_nested_eq) as (Hlen & Hit & _).
  split; [exact Hlen|exact Hit].
Defined.

Lemma fit_log_width_witness :
  exists st rs',
    @nest.Nested_Sampler.fit_run Demo.numerics Demo.model Demo.clustering 0
      (nest.Nested_Sampler.init Demo.ensemble2 2 3 "metropolis" false (1 # 10))
      (Demo.draws_still 162) = Ret (st, rs') /\
    nest.Nested_Sampler.self_log_width st
    = @math_log Demo.numerics (1 - @math_exp Demo.numerics (-1 / float 2))
      - 1 / float 2 - 1 / float 2.
Proof.
  eexists _, _. split; [exact run_nested_eq|].
  pose proof (@fit_log_width Demo.numerics Demo.model Demo.clustering
                _ _ _ _ _ run_nested_eq) as [Hk Hw].
  exact Hw.
Defined.

(** C5 as stated fails in the program's arithmetic.  For N = 100, take the
    double nearest to log(1 - exp(-1/100)), or any of the 64 doubles on
    either side of it (so whatever the last digits of [math.exp] and
    [math.log] are): three passes, each subtracting 1.0/100, end on a double
    other than the width minus 3/100.  From -0x1.270cf5c68861ap+2 the loop
    reaches -0x1.28f87ae540b38p+2, the closed form is
    -0x1.28f87ae540b39p+2. *)
Lemma log_width_drifts :
  forallb
    (fun w0 =>
       negb (PrimFloat.eqb (Binary64.log_width_after w0 100 3)
                           (Binary64.closed_form w0 100 3)))
    (Binary64.around Binary64.initial_width_100 64)
  = true.
Proof. vm_compute. reflexivity. Qed.

Lemma clustered_sampling_above_witness :
  exists s n rs',
    @nest.Nested_Sampler.clustered_sampling Demo.clustering 1 Demo.ensemble2
      (- (100)) 2 [1 # 4; 1 # 2] = Ret ((s, n), rs') /\
    - (100) < logL s.
Proof.
  eexists _, _, _. split; [exact run_clustered_eq|].
  exact (proj1 (@clustered_sampling_above Demo.clustering
                  _ _ _ _ _ _ _ _ run_clustered_eq)).
Defined.

Lemma fit_in_bounds_witness :
  exists r rs',
    @nest.Nested_Sampler.fit Demo.numerics Demo.model Demo.clustering 0
      (nest.Nested_Sampler.init Demo.ensemble2 2 3 "metropolis" false (1 # 10))
      (Demo.draws_still 162) = Ret (r, rs') /\
    Forall (@Spec.in_bounds Demo.model) (nest.Nested_Sampler.src r) /\
    Forall (@Spec.in_bounds Demo.model) (nest.Nested_Sampler.samples r).
Proof.
  eexists _, _. split; [exact fit_nested_eq|].
  refine (@fit_in_bounds Demo.numerics Demo.model Demo.clustering
            _ _ _ _ _ _ _ _ _ _ _ ensemble2_in_bounds fit_nested_eq).
  intros Hflag. discriminate Hflag.
Defined.

Lemma fit_needs_two_points_witness :
  (2 <= nest.Nested_Sampler.no_active_samples Demo.nested)%Z \/
  (nest.Nested_Sampler.maximum_iterations Demo.nested < 2)%Z.
Proof.
  exact (proj1 (@fit_needs_two_points Demo.numerics Demo.model Demo.clustering)
           0%nat Demo.nested _ _ _ eq_refl fit_nested_eq).
Defined.

(** * Further properties of the code *)

(** ** Indexing and [np.argmin] *)

Lemma getitem_nat {T} (l : list T) (j : nat) rs v rs' :
  getitem l (Z.of_nat j) rs = Ret (v, rs') <-> l !! j = Some v /\ rs' = rs.
Proof.
  unfold getitem.
  destruct (Z.ltb_spec (Z.of_nat j) 0) as [Hneg|_]; [lia|].
  destruct (Z.ltb_spec (Z.of_nat j) 0) as [Hneg|_]; [lia|].
  rewrite Nat2Z.id. destruct (l !! j) as [x|]; split.
  - intros [-> ->]%ret_Ret. auto.
  - intros [[= ->] ->]. reflexivity.
  - intros []%raise_Ret.
  - intros [[=] _].
Qed.

Lemma setitem_nat {T} (l : list T) (j : nat) x rs l' rs' :
  setitem l (Z.of_nat j) x rs = Ret (l', rs') <->
  (j < length l)%nat /\ l' = <[j := x]> l /\ rs' = rs.
Proof.
  unfold setitem.
  destruct (Z.ltb_spec (Z.of_nat j) 0) as [Hneg|_]; [lia|].
  destruct (Z.ltb_spec (Z.of_nat j) 0) as [Hneg|_]; [lia|].
  rewrite Nat2Z.id. destruct (Nat.ltb_spec j (length l)); split.
  - intros [-> ->]%ret_Ret. auto.
  - intros (_ & -> & ->). reflexivity.
  - intros []%raise_Ret.
  - intros (Hlt & _). lia.
Qed.

(** The scan of [np.argmin] ends on an index whose element no element of the
    sequence is below. *)
Lemma argmin_from_least (L : list Q) :
  forall l bi b i,
    L !! bi = Some b ->
    drop i L = l ->
    (forall m y, (m < i)%nat -> L !! m = Some y -> b <= y) ->
    exists low,
      L !! argmin_from bi b i l = Some low /\
      forall m y, L !! m = Some y -> low <= y.
Proof.
  induction l as [|x l IH]; intros bi b i Hb Hdrop Hle; cbn [argmin_from].
  - exists b. split; [exact Hb|]. intros m y Hm.
    apply Hle with m; [|exact Hm].
    apply lookup_lt_Some in Hm.
    assert (length (drop i L) = 0%nat) as Hlen by (rewrite Hdrop; reflexivity).
    rewrite length_drop in Hlen. lia.
  - assert (Hi : L !! i = Some x).
    { rewrite <- (Nat.add_0_r i), <- lookup_drop, Hdrop. reflexivity. }
    assert (Hdrop' : drop (S i) L = l).
    { replace (S i) with (i + 1)%nat by lia.
      rewrite <- (drop_drop L 1 i), Hdrop. reflexivity. }
    destruct (lt x b) eqn:Hlt.
    + apply (IH i x (S i) Hi Hdrop'). intros m y Hm Hy.
      apply lt_iff in Hlt.
      destruct (Nat.eq_dec m i) as [->|Hne].
      * rewrite Hi in Hy. injection Hy as <-. apply Qle_refl.
      * apply Qle_trans with b; [apply Qlt_le_weak, Hlt|].
        apply Hle with m; [lia|exact Hy].
    + apply (IH bi b (S i) Hb Hdrop'). intros m y Hm Hy.
      apply lt_false_iff in Hlt.
      destruct (Nat.eq_dec m i) as [->|Hne].
      * rewrite Hi in Hy. injection Hy as <-. exact Hlt.
      * apply Hle with m; [lia|exact Hy].
Qed.

Lemma argmin_Ret l rs z rs' :
  argmin l rs = Ret (z, rs') ->
  rs' = rs /\
  exists (j : nat) low,
    z = Z.of_nat j /\ l !! j = Some low /\
    forall m y, l !! m = Some y -> low <= y.
Proof.
  destruct l as [|x l]; cbn [argmin]; [intros []%raise_Ret|].
  intros [-> ->]%ret_Ret. split; [reflexivity|].
  destruct (argmin_from_least (x :: l) l 0 x 1) as (low & Hlow & Hle);
    [reflexivity|reflexivity| |eauto].
  intros m y Hm Hy. destruct m; [|lia].
  injection Hy as <-. apply Qle_refl.
Qed.

Ltac next_as H E :=
  let a := fresh "a" in
  let rs := fresh "rs" in
  apply bind_Ret in H as (a & rs & E & H).

Lemma argmax_Ret l rs z rs' : argmax l rs = Ret (z, rs') -> rs' = rs.
Proof.
  destruct l; cbn [argmax]; [intros []%raise_Ret|].
  intros [_ ->]%ret_Ret. reflexivity.
Qed.

(** ** One pass of the main loop, index by index *)

Section Passes.
Context `{Numerics} `{Model} `{Clustering}.
Import nest.Nested_Sampler.

(** A pass discards the point at the first least entry [j] of [LogL], draws a
    survivor, and puts the strategy's point at [j], in the ensemble and in
    [LogL] alike. *)
Lemma iteration_exact retries self i st rs st' rs' :
  body retries self i st rs = Ret (st', rs') ->
  exists (j : nat) (low : Q) (w0 : Source) (survivor : Z) (rs1 : list Q),
    let worst := set_logWt w0 (self_log_width st + logL w0) in
    let act1 := <[j := worst]> (self_active_samples st) in
    LogL st !! j = Some low /\
    (forall m y, LogL st !! m = Some y -> low <= y) /\
    self_active_samples st !! j = Some w0 /\
    pick_survivor (no_active_samples self) (Z.of_nat j) rs = Ret (survivor, rs1) /\
    self_posterior_inferences st' = self_posterior_inferences st ++ [worst] /\
    self_log_width st' = self_log_width st - 1 / float (no_active_samples self) /\
    ((sample self = "metropolis"%string /\
      exists obj updated,
        getitem act1 survivor rs1 = Ret (obj, rs1) /\
        nest.Metropolis_sampler.sample
          (nest.Metropolis_sampler.init obj (logL w0) (self_no_likelihood st)) rs1
        = Ret ((updated, self_no_likelihood st'), rs') /\
        self_active_samples st' = <[j := updated]> act1 /\
        LogL st' = <[j := logL updated]> (LogL st))
     \/ (sample self = "clustered_ellipsoidal"%string /\
         exists updated,
           clustered_sampling retries act1 (logL w0) (self_no_likelihood st) rs1
           = Ret ((updated, self_no_likelihood st'), rs') /\
           self_active_samples st' = <[j := updated]> act1 /\
           LogL st' = <[j := logL updated]> (LogL st))
     \/ (sample self <> "metropolis"%string /\
         sample self <> "clustered_ellipsoidal"%string /\
         self_active_samples st' = act1 /\ LogL st' = LogL st /\
         self_no_likelihood st' = self_no_likelihood st /\ rs' = rs1)).
Proof.
  unfold body. intros Hrun.
  next_as Hrun Emin. apply argmin_Ret in Emin as (-> & j & low & -> & Hlow & Hmin).
  next_as Hrun Ew. rename a into w0. apply getitem_nat in Ew as [Hw0 ->].
  next_as Hrun Eset. apply setitem_nat in Eset as (Hj & -> & ->).
  next_as Hrun Emax. apply argmax_Ret in Emax as ->.
  next_as Hrun Ebest. apply getitem_Ret in Ebest as [_ ->].
  next_as Hrun Esurv. rename a1 into survivor. rename rs0 into rs1.
  exists j, low, w0, survivor, rs1. cbv zeta.
  do 4 (split; [assumption|]).
  destruct (String.eqb_spec (sample self) "metropolis") as [Hm|Hm].
  - assert (String.eqb (sample self) "clustered_ellipsoidal" = false) as Hc
      by (rewrite Hm; reflexivity).
    rewrite Hc in Hrun. unfold metropolis_sampling in Hrun.
    next_as Hrun Estrat. destruct a1 as [[act2 logl2] nl2].
    next_as Estrat Eobj. rename a1 into obj.
    assert (rs2 = rs1) as -> by (apply getitem_Ret in Eobj as [_ ->]; reflexivity).
    next_as Estrat Esample. destruct a1 as [updated number].
    next_as Estrat Eact. apply setitem_nat in Eact as (_ & -> & ->).
    next_as Estrat Elogl. apply setitem_nat in Elogl as (_ & -> & ->).
    apply ret_Ret in Estrat as [[= -> -> ->] ->].
    next_as Hrun Enone. apply ret_Ret in Enone as [-> ->]. cbn beta iota in Hrun.
    next_as Hrun Ediv. apply truediv_Ret in Ediv as (_ & -> & ->).
    apply ret_Ret in Hrun as [-> ->].
    cbn [self_posterior_inferences self_log_width self_active_samples
         self_no_likelihood LogL].
    do 2 (split; [reflexivity|]).
    left. split; [exact Hm|]. exists obj, updated. auto.
  - next_as Hrun Enone. apply ret_Ret in Enone as [-> ->]. cbn beta iota in Hrun.
    destruct (String.eqb_spec (sample self) "clustered_ellipsoidal") as [Hc|Hc].
    + next_as Hrun Estrat. destruct a1 as [[act2 logl2] nl2].
      next_as Estrat Esample. destruct a1 as [updated number].
      next_as Estrat Eact. apply setitem_nat in Eact as (_ & -> & ->).
      next_as Estrat Elogl. apply setitem_nat in Elogl as (_ & -> & ->).
      apply ret_Ret in Estrat as [[= -> -> ->] ->].
      next_as Hrun Ediv. apply truediv_Ret in Ediv as (_ & -> & ->).
      apply ret_Ret in Hrun as [-> ->].
      cbn [self_posterior_inferences self_log_width self_active_samples
           self_no_likelihood LogL].
      do 2 (split; [reflexivity|]).
      right; left. split; [exact Hc|]. exists updated. auto.
    + next_as Hrun Enone. apply ret_Ret in Enone as [-> ->]. cbn beta iota in Hrun.
      next_as Hrun Ediv. apply truediv_Ret in Ediv as (_ & -> & ->).
      apply ret_Ret in Hrun as [-> ->].
      cbn [self_posterior_inferences self_log_width self_active_samples
           self_no_likelihood LogL].
      do 2 (split; [reflexivity|]).
      right; right. repeat split; auto.
Qed.

End Passes.

(** ** More on the Metropolis sampler *)

Section MetropolisMore.
Context `{Numerics} `{Model}.
Import metropolis.Metropolis_sampler.

(** A pass reads four draws for each candidate it generates, and nothing
    else. *)
Lemma body_draws self st rs st' rs' :
  body self st rs = Ret (st', rs') ->
  exists k, length rs = (4 * S k + length rs')%nat.
Proof.
  unfold body. intros Hrun. next_as Hrun Eprop.
  apply propose_Ret in Eprop as (_ & _ & _ & k & Hk).
  exists k. rewrite Hk. f_equal.
  destruct (gt _ _); unravel; repeat match goal with
    | H : (if ?b then _ else _) _ = Ret _ |- _ => destruct b; unravel
    end; reflexivity.
Qed.

Lemma loop_draws self passes :
  forall st rs st' rs',
    (0 <= count st <= 20)%Z ->
    loop passes self st rs = Ret (st', rs') ->
    exists k, (Z.to_nat (20 - count st) <= k)%nat /\
              length rs = (4 * k + length rs')%nat.
Proof.
  induction passes as [|p IH]; intros st rs st' rs' Hc; cbn [loop];
    destruct (Z.ltb_spec (count st) 20) as [Hlt|Hge].
  - discriminate.
  - intros [-> ->]%ret_Ret. exists O. split; lia.
  - intros Hrun. next_as Hrun Eb.
    pose proof (body_draws _ _ _ _ _ Eb) as (k1 & Hk1).
    apply body_Ret in Eb. cbv zeta in Eb.
    destruct Eb as (_ & _ & _ & _ & _ & _ & Hcount & _).
    apply IH in Hrun as (k2 & Hk2 & Hlen); [|lia].
    exists (S k1 + k2)%nat. split; lia.
  - intros [-> ->]%ret_Ret. exists O. split; lia.
Qed.

(** X1.  A call of [sample] that returns has read a multiple of four
    draws, at least eighty: four for each candidate generated, and at least
    one candidate in each of the twenty passes. *)
Theorem sample_draws (self : t) (rs rs' : list Q) (s : Source) (n : Z) :
  sample self rs = Ret ((s, n), rs') ->
  exists k, (20 <= k)%nat /\ length rs = (4 * k + length rs')%nat.
Proof.
  unfold sample. intros Hrun. next_as Hrun Erun.
  apply ret_Ret in Hrun as [_ ->].
  apply sample_run_Ret in Erun as (st0 & Hloop & _ & Hc & _).
  apply loop_draws in Hloop as (k & Hk & Hlen); [|lia].
  exists k. rewrite Hc in Hk. split; [lia|exact Hlen].
Qed.

(** X2.  The Source that [sample] returns has its four coordinates
    within the prior bounds whenever the seed has. *)
Theorem sample_in_bounds (self : t) (rs rs' : list Q) (s : Source) (n : Z) :
  Spec.in_bounds (source self) ->
  sample self rs = Ret ((s, n), rs') ->
  Spec.in_bounds s.
Proof.
  unfold sample. intros Hseed Hrun. next_as Hrun Erun.
  apply ret_Ret in Hrun as [[= -> _] _].
  apply sample_run_metro in Erun as [->|[_ Hb]]; assumption.
Qed.

(** When the upper prior bound of X is zero, [sample] raises
    [ZeroDivisionError] before it reads a draw, whatever the seed is. *)
Lemma sample_zero_bound (self : t) (rs : list Q) :
  snd getPrior_X == 0 ->
  sample self rs = Raise ZeroDivisionError.
Proof.
  intros Hz. apply Qeq_bool_iff in Hz.
  unfold sample, sample_run, mbind, M_bind, bind, truediv. rewrite Hz. reflexivity.
Qed.

End MetropolisMore.

Section MetropolisSafety.
Context `{Numerics} `{Model}.
Import metropolis.Metropolis_sampler.

Hypothesis exp_nonzero : forall x, Qeq_bool (math_exp x) 0 = false.
Hypothesis x_upper_nonzero : Qeq_bool (snd getPrior_X) 0 = false.

Lemma propose_no_raise m sX sY sA sR rs :
  forall n e, propose m n sX sY sA sR rs <> Raise e.
Proof.
  induction rs as [rs IH] using (induction_ltof1 _ (@length Q)).
  intros n e. destruct rs as [|u1 [|u2 [|u3 [|u4 rs1]]]]; try discriminate.
  cbn [propose]. destruct (bord_of _); [|discriminate].
  apply IH. unfold ltof. simpl. lia.
Qed.

Lemma float_nonzero (z : Z) : z <> 0%Z -> Qeq_bool (float z) 0 = false.
Proof.
  intros Hz. apply not_true_iff_false. intros Heq%Qeq_bool_iff.
  apply Hz. unfold float, Qeq in Heq. simpl in Heq. lia.
Qed.

Lemma body_no_raise self st rs e :
  (0 <= hit st)%Z -> (0 <= miss st)%Z ->
  body self st rs <> Raise e.
Proof.
  intros Hh Hm. unfold body, mbind, M_bind, bind.
  destruct (propose _ _ _ _ _ _ rs) as [[n rs1]| |] eqn:Hp; try discriminate.
  - destruct (gt _ _); cbn beta iota; unfold truediv, ret.
    + destruct (Z.gtb_spec (hit st + 1) (miss st)) as [Hgt|Hle].
      * rewrite float_nonzero by lia.
        destruct (Z.ltb_spec (hit st + 1) (miss st)); [lia|].
        rewrite x_upper_nonzero. discriminate.
      * destruct (Z.ltb_spec (hit st + 1) (miss st)).
        -- rewrite float_nonzero by lia. rewrite exp_nonzero, x_upper_nonzero.
           discriminate.
        -- rewrite x_upper_nonzero. discriminate.
    + destruct (Z.gtb_spec (hit st) (miss st + 1)) as [Hgt|Hle].
      * rewrite float_nonzero by lia.
        destruct (Z.ltb_spec (hit st) (miss st + 1)); [lia|].
        rewrite x_upper_nonzero. discriminate.
      * destruct (Z.ltb_spec (hit st) (miss st + 1)).
        -- rewrite float_nonzero by lia. rewrite exp_nonzero, x_upper_nonzero.
           discriminate.
        -- rewrite x_upper_nonzero. discriminate.
  - intros [= <-]. exact (propose_no_raise _ _ _ _ _ _ _ _ Hp).
Qed.

Lemma loop_no_raise self passes :
  forall st rs e,
    (0 <= hit st)%Z -> (0 <= miss st)%Z ->
    loop passes self st rs <> Raise e.
Proof.
  induction passes as [|p IH]; intros st rs e Hh Hm; cbn [loop];
    destruct (Z.ltb (count st) 20); try discriminate.
  unfold mbind, M_bind, bind.
  destruct (body self st rs) as [[st1 rs1]|e1|] eqn:Hb; try discriminate.
  - apply body_Ret in Hb. cbv zeta in Hb.
    destruct Hb as (_ & _ & _ & Hh1 & Hm1 & _).
    apply IH; [rewrite Hh1|rewrite Hm1]; destruct (gt _ _); lia.
  - exfalso. exact (body_no_raise _ _ _ _ Hh Hm Hb).
Qed.

Lemma sample_no_raise self rs e : sample self rs <> Raise e.
Proof.
  unfold sample, sample_run, mbind, M_bind, bind, truediv.
  rewrite x_upper_nonzero. unfold ret at 1.
  match goal with |- context [loop 20 self ?s rs] =>
    destruct (loop 20 self s rs) as [[st1 rs1]|e1|] eqn:Hl end; try discriminate.
  exfalso. apply loop_no_raise in Hl; [exact Hl| |]; cbn; lia.
Qed.

End MetropolisSafety.

Section MetropolisErrors.
Context `{Numerics} `{Model}.
Import metropolis.Metropolis_sampler.

(** X3.  Provided [math.exp] never returns zero, [sample] raises
    exactly when the upper prior bound of X is zero, and what it raises then
    is [ZeroDivisionError]: the divisions by the hit and miss counts and by
    exp(1/misses) never fail. *)
Theorem sample_raises_iff (self : t) (rs : list Q) :
  (forall x, ~ math_exp x == 0) ->
  ((exists e, sample self rs = Raise e) <-> snd getPrior_X == 0) /\
  (forall e, sample self rs = Raise e -> e = ZeroDivisionError).
Proof.
  intros Hexp.
  assert (Hexp' : forall x, Qeq_bool (math_exp x) 0 = false).
  { intros x. apply not_true_iff_false. intros Heq%Qeq_bool_iff.
    exact (Hexp x Heq). }
  destruct (Qeq_bool (snd getPrior_X) 0) eqn:Hx.
  - pose proof (sample_zero_bound self rs (proj1 (Qeq_bool_iff _ _) Hx)) as Hr.
    split.
    + split; [intros _; apply Qeq_bool_iff, Hx|eauto].
    + intros e He. congruence.
  - split.
    + split.
      * intros [e He]. exfalso. exact (sample_no_raise Hexp' Hx self rs e He).
      * intros Hz%Qeq_bool_iff. congruence.
    + intros e He. exfalso. exact (sample_no_raise Hexp' Hx self rs e He).
Qed.

(** X4.  If the likelihood depends on the four coordinates only
    and the seed's logL is the likelihood of the seed, the logL of the Source
    that [sample] returns is the likelihood of that Source. *)
Theorem sample_logL_cached (self : t) (rs rs' : list Q) (s : Source) (n : Z) :
  (forall a b, X a = X b -> Y a = Y b -> A a = A b -> R a = R b ->
               log_likelihood a = log_likelihood b) ->
  logL (source self) = log_likelihood (source self) ->
  sample self rs = Ret ((s, n), rs') ->
  logL s = log_likelihood s.
Proof.
  intros Hcoord Hseed Hrun. unfold sample in Hrun. next_as Hrun Erun.
  apply ret_Ret in Hrun as [[= -> _] _].
  apply sample_run_Ret in Erun as (st0 & Hloop & Hm & _).
  apply (loop_invariant self (fun st => logL (metro st) = log_likelihood (metro st)))
    in Hloop; [tauto| |rewrite Hm; exact Hseed].
  intros st rs1 st1 rs2 HP _ Hb.
  apply body_Ret in Hb. cbv zeta in Hb.
  destruct Hb as (_ & HL & Hmetro & _).
  rewrite Hmetro. destruct (gt _ _); [|exact HP].
  rewrite HL. apply Hcoord; reflexivity.
Qed.

End MetropolisErrors.

(** ** More on the main loop *)

Lemma map_insert {T U} (f : T -> U) (l : list T) (j : nat) (x : T) :
  List.map f (<[j := x]> l) = <[j := f x]> (List.map f l).
Proof. exact (list_fmap_insert f l j x). Qed.

Lemma map_lookup {T U} (f : T -> U) (l : list T) (j : nat) (x : T) :
  l !! j = Some x -> List.map f l !! j = Some (f x).
Proof.
  intros Hl. change (List.map f l) with (f <$> l).
  rewrite list_lookup_fmap, Hl. reflexivity.
Qed.

Lemma map_lookup_inv {T U} (f : T -> U) (l : list T) (j : nat) (y : U) :
  List.map f l !! j = Some y -> exists x, l !! j = Some x /\ y = f x.
Proof.
  change (List.map f l) with (f <$> l). rewrite list_lookup_fmap.
  destruct (l !! j) as [x|]; [|discriminate]. intros [= <-]. eauto.
Qed.

Lemma StronglySorted_snoc {T} (Rel : T -> T -> Prop) (l : list T) (x : T) :
  StronglySorted Rel l -> Forall (fun e => Rel e x) l ->
  StronglySorted Rel (l ++ [x]).
Proof.
  induction 1 as [|a l Hs IH Ha]; intros Hx; cbn.
  - repeat constructor.
  - inversion Hx as [|? ? Hax Hlx]; subst.
    constructor; [apply IH, Hlx|].
    apply Forall_app. split; [exact Ha|repeat constructor; exact Hax].
Qed.

Section Order.
Context `{Numerics} `{Model} `{Clustering}.
Import nest.Nested_Sampler.

(** What the copy of the sampler in nest.py returns. *)
Lemma nest_sample_Ret obj constraint c rs u n rs' :
  nest.Metropolis_sampler.sample
    (nest.Metropolis_sampler.init obj constraint c) rs = Ret ((u, n), rs') ->
  (u = obj \/ (constraint < logL u /\ Spec.in_bounds u)) /\ n = (c + 21)%Z.
Proof.
  change (nest.Metropolis_sampler.init obj constraint c)
    with (Sim.obj (metropolis.Metropolis_sampler.init obj constraint c)).
  rewrite sample_same. unfold metropolis.Metropolis_sampler.sample.
  intros Hrun. next_as Hrun Erun. apply ret_Ret in Hrun as [[= -> ->] _].
  split.
  - exact (sample_run_metro _ _ _ _ Erun).
  - apply sample_run_counters in Erun as (_ & _ & Hn & _). exact Hn.
Qed.

(** A pass keeps [LogL] equal to the logL of the ensemble, keeps the size of
    the ensemble, discards a point of least logL, and leaves no point below
    it. *)
Lemma iteration_keeps retries self i st rs st' rs' :
  body retries self i st rs = Ret (st', rs') ->
  LogL st = List.map logL (self_active_samples st) ->
  LogL st' = List.map logL (self_active_samples st') /\
  length (self_active_samples st') = length (self_active_samples st) /\
  exists worst,
    self_posterior_inferences st' = self_posterior_inferences st ++ [worst] /\
    (exists m, LogL st !! m = Some (logL worst)) /\
    (forall m y, LogL st !! m = Some y -> logL worst <= y) /\
    (forall m y, LogL st' !! m = Some y -> logL worst <= y).
Proof.
  intros Hb Hsync.
  apply iteration_exact in Hb
    as (j & low & w0 & survivor & rs1 & Hlow & Hmin & Hw0 & _ & Hpost & _ & Hcase).
  cbv zeta in *.
  assert (Hlw : low = logL w0).
  { rewrite Hsync in Hlow. apply map_lookup_inv in Hlow as (x & Hx & ->).
    congruence. }
  subst low.
  set (worst := set_logWt w0 (self_log_width st + logL w0)) in *.
  assert (Hup : forall updated,
             logL w0 <= logL updated ->
             <[j := logL updated]> (LogL st)
             = List.map logL (<[j := updated]> (<[j := worst]> (self_active_samples st)))
             /\ (forall m y, <[j := logL updated]> (LogL st) !! m = Some y ->
                             logL w0 <= y)).
  { intros updated Hle. split.
    - rewrite list_insert_insert_eq, map_insert, Hsync. reflexivity.
    - intros m y [(_ & <- & _)|[_ Hy]]%list_lookup_insert_Some;
        [exact Hle|exact (Hmin _ _ Hy)]. }
  destruct Hcase as [(_ & obj & updated & Hobj & Hs & -> & ->)
                    |[(_ & updated & Hs & -> & ->)
                     |(_ & _ & -> & -> & _)]].
  - assert (Hle : logL w0 <= logL updated).
    { apply nest_sample_Ret in Hs as [[->|[Hlt _]] _]; [|apply Qlt_le_weak, Hlt].
      apply getitem_Ret in Hobj as [Hin _].
      apply list_elem_of_In, list_elem_of_lookup_1 in Hin as [m Hm].
      apply list_lookup_insert_Some in Hm as [(_ & <- & _)|[_ Hm]];
        [apply Qle_refl|].
      apply (Hmin m). rewrite Hsync. apply map_lookup, Hm. }
    destruct (Hup updated Hle) as [Hs1 Hs2].
    split; [exact Hs1|]. split; [rewrite !length_insert; reflexivity|].
    exists worst. eauto 6.
  - assert (Hle : logL w0 <= logL updated).
    { apply clustered_sampling_Ret, retried_above in Hs. apply Qlt_le_weak, Hs. }
    destruct (Hup updated Hle) as [Hs1 Hs2].
    split; [exact Hs1|]. split; [rewrite !length_insert; reflexivity|].
    exists worst. eauto 6.
  - split.
    + rewrite map_insert, Hsync. symmetry.
      apply list_insert_id. exact (map_lookup logL _ _ _ Hw0).
    + split; [apply length_insert|]. exists worst. eauto 6.
Qed.

End Order.

Section FitMore.
Context `{Numerics} `{Model} `{Clustering}.
Import nest.Nested_Sampler.

(** X7.  When [fit] leaves its loop the ensemble has the size
    it had at the call, and the list [LogL] that the loop searches for the
    worst point holds, position by position, the logL of the ensemble. *)
Theorem fit_ensemble_kept (retries : nat) (self : t) (rs rs' : list Q) (st : locals) :
  fit_run retries self rs = Ret (st, rs') ->
  length (self_active_samples st) = length (active_samples self) /\
  LogL st = List.map logL (self_active_samples st).
Proof.
  intros (_ & _ & Hloop)%fit_run_Ret.
  apply (for_each_invariant (body retries self)
           (fun _ s =>
              length (self_active_samples s) = length (active_samples self) /\
              LogL s = List.map logL (self_active_samples s))
           ) with (visited := []) in Hloop; [exact Hloop| |split; reflexivity].
  intros _ i s rs1 s' rs2 [Hlen Hsync] Hb.
  apply iteration_keeps in Hb as (Hsync' & Hlen' & _); [|exact Hsync].
  split; [congruence|exact Hsync'].
Qed.

(** X8.  Whatever the strategy, the entries that a call
    of [fit] adds to the trace come in non-decreasing order of logL, and none
    of them has a logL above that of a point of the returned ensemble: every
    discarded point is a least point of an ensemble in which no point lies
    below the points discarded before. *)
Theorem fit_trace_sorted (retries : nat) (self : t) (rs rs' : list Q) (r : result) :
  fit retries self rs = Ret (r, rs') ->
  exists added,
    samples r = posterior_inferences self ++ added /\
    StronglySorted (fun a b => logL a <= logL b) added /\
    Forall (fun e => Forall (fun p => logL e <= logL p) (src r)) added.
Proof.
  intros (st & (_ & _ & Hloop)%fit_run_Ret & ->)%fit_Ret. cbn [samples src].
  apply (for_each_invariant (body retries self)
           (fun _ s =>
              LogL s = List.map logL (self_active_samples s) /\
              exists added,
                self_posterior_inferences s = posterior_inferences self ++ added /\
                StronglySorted (fun a b => logL a <= logL b) added /\
                Forall (fun e => forall m y, LogL s !! m = Some y -> logL e <= y) added)
           ) with (visited := []) in Hloop.
  - destruct Hloop as (Hsync & added & Hpost & Hsorted & Hlow).
    exists added. split; [exact Hpost|]. split; [exact Hsorted|].
    eapply Forall_impl; [exact Hlow|]. cbn beta. intros e He.
    apply Forall_lookup. intros m p Hp. apply (He m).
    rewrite Hsync. exact (map_lookup logL _ _ _ Hp).
  - intros _ i s rs1 s' rs2 (Hsync & added & Hpost & Hsorted & Hlow) Hb.
    apply iteration_keeps in Hb
      as (Hsync' & _ & worst & Hpost' & [j Hj] & Hmin & Hmin'); [|exact Hsync].
    assert (Hbefore : Forall (fun e => logL e <= logL worst) added).
    { eapply Forall_impl; [exact Hlow|]. cbn beta. intros e He. exact (He _ _ Hj). }
    split; [exact Hsync'|]. exists (added ++ [worst]). split; [|split].
    + rewrite Hpost', Hpost, <- List.app_assoc. reflexivity.
    + apply StronglySorted_snoc; assumption.
    + apply Forall_app. split.
      * eapply Forall_impl; [exact Hbefore|]. cbn beta. intros e He m y Hy.
        apply Qle_trans with (logL worst); [exact He|exact (Hmin' _ _ Hy)].
      * repeat constructor. exact Hmin'.
  - split; [reflexivity|]. exists []. rewrite List.app_nil_r.
    repeat constructor.
Qed.

(** X9.  With the Metropolis strategy every pass of the loop adds
    21 to the count of likelihood calls: [fit] returns the count it started
    with plus 21 times the number of passes. *)
Theorem fit_likelihood_calls (retries : nat) (self : t) (rs rs' : list Q) (r : result) :
  sample self = "metropolis"%string ->
  fit retries self rs = Ret (r, rs') ->
  likelihood_calculations r
  = (no_likelihood self + 21 * Z.of_nat (Z.to_nat (maximum_iterations self - 1)))%Z.
Proof.
  intros Hm (st & (_ & _ & Hloop)%fit_run_Ret & ->)%fit_Ret.
  cbn [likelihood_calculations].
  apply (for_each_invariant (body retries self)
           (fun visited s =>
              self_no_likelihood s
              = (no_likelihood self + 21 * Z.of_nat (length visited))%Z)
           ) with (visited := []) in Hloop.
  - rewrite Hloop. cbn [app]. rewrite range_length. reflexivity.
  - intros visited i s rs1 s' rs2 Hn Hb.
    apply iteration_exact in Hb
      as (j & low & w0 & survivor & rs3 & _ & _ & _ & _ & _ & _ & Hcase).
    cbv zeta in Hcase.
    destruct Hcase as [(_ & obj & updated & _ & Hs & _)
                      |[(Hc & _)|(Hn' & _)]]; try congruence.
    apply nest_sample_Ret in Hs as [_ Hs]. rewrite Hs, Hn, List.length_app.
    cbn [length]. lia.
  - cbn. lia.
Qed.

(** X10.  The k-th entry (from 0) that a call of [fit] adds to the trace
    carries the weight w + logL, where logL is its own and w is what k
    successive subtractions of 1/N make of log(1 - exp(-1/N)): the width of
    the pass that discarded it. *)
Theorem fit_trace_weights (retries : nat) (self : t) (rs rs' : list Q) (r : result) :
  fit retries self rs = Ret (r, rs') ->
  let N := float (no_active_samples self) in
  exists added,
    samples r = posterior_inferences self ++ added /\
    forall (k : nat) e,
      added !! k = Some e ->
      logWt e
      = Some (Nat.iter k (fun w => w - 1 / N) (math_log (1 - math_exp (-1 / N)))
              + logL e).
Proof.
  intros (st & (_ & _ & Hloop)%fit_run_Ret & ->)%fit_Ret. cbn [samples]. cbv zeta.
  set (w0 := math_log (1 - math_exp (-1 / float (no_active_samples self)))) in *.
  set (shrink := fun w => w - 1 / float (no_active_samples self)).
  apply (for_each_invariant (body retries self)
           (fun visited s =>
              self_log_width s = Nat.iter (length visited) shrink w0 /\
              exists added,
                length added = length visited /\
                self_posterior_inferences s = posterior_inferences self ++ added /\
                forall (k : nat) e,
                  added !! k = Some e ->
                  logWt e = Some (Nat.iter k shrink w0 + logL e))
           ) with (visited := []) in Hloop.
  - destruct Hloop as (_ & added & _ & Hpost & Hw). eauto.
  - intros visited i s rs1 s' rs2 (Hwidth & added & Hlen & Hpost & Hw) Hb.
    apply iteration_Ret in Hb as (p & j & _ & Hpost' & _ & _ & Hwidth' & _).
    cbv zeta in Hpost'. split.
    + rewrite Hwidth', Hwidth, List.length_app, Nat.add_1_r. reflexivity.
    + exists (added ++ [set_logWt p (self_log_width s + logL p)]).
      split; [rewrite !List.length_app, Hlen; reflexivity|].
      split; [rewrite Hpost', Hpost, <- List.app_assoc; reflexivity|].
      intros k e Hk.
      apply lookup_app_Some in Hk as [Hk|[Hge Hk]]; [exact (Hw _ _ Hk)|].
      destruct (k - length added)%nat as [|k'] eqn:Hk'; [|discriminate].
      injection Hk as <-. cbn [logWt logL set_logWt].
      replace k with (length visited) by lia.
      rewrite Hwidth. reflexivity.
  - split; [reflexivity|].
    exists []. rewrite List.app_nil_r. repeat split. intros k e [=].
Qed.

End FitMore.

Section FitEdges.
Context `{Numerics} `{Model} `{Clustering}.
Import nest.Nested_Sampler.

(** X11.  When the strategy is neither "metropolis" nor
    "clustered_ellipsoidal", [fit] raises nothing for it: it returns an
    ensemble whose points differ from those it was given in logWt only, and
    the count of likelihood calls it was given. *)
Theorem fit_unknown_strategy (retries : nat) (self : t) (rs rs' : list Q) (r : result) :
  sample self <> "metropolis"%string ->
  sample self <> "clustered_ellipsoidal"%string ->
  fit retries self rs = Ret (r, rs') ->
  List.map Spec.coords (src r) = List.map Spec.coords (active_samples self) /\
  likelihood_calculations r = no_likelihood self.
Proof.
  intros Hm Hc (st & (_ & _ & Hloop)%fit_run_Ret & ->)%fit_Ret.
  cbn [src likelihood_calculations].
  apply (for_each_invariant (body retries self)
           (fun _ s =>
              List.map Spec.coords (self_active_samples s)
              = List.map Spec.coords (active_samples self) /\
              self_no_likelihood s = no_likelihood self)
           ) with (visited := []) in Hloop; [exact Hloop| |split; reflexivity].
  intros _ i s rs1 s' rs2 [Hco Hn] Hb.
  apply iteration_exact in Hb
    as (j & low & w0 & survivor & rs3 & _ & _ & Hw0 & _ & _ & _ & Hcase).
  cbv zeta in Hcase.
  destruct Hcase as [(Hm' & _)|[(Hc' & _)|(_ & _ & -> & _ & -> & _)]];
    try contradiction.
  split; [|exact Hn]. rewrite map_insert, <- Hco.
  apply list_insert_id. exact (map_lookup Spec.coords _ _ _ Hw0).
Qed.

(** X12.  [fit] raises [ZeroDivisionError] when
    [no_active_samples] is 0, and [ValueError] when 1 - exp(-1/N) is not
    positive; otherwise, when [maximum_iterations] is at most 1, it returns
    at once, without reading a draw: the ensemble, the trace and the call
    count are those it was given, the evidence is the sentinel -1e300 and the
    information is 0. *)
Theorem fit_before_loop (retries : nat) (self : t) (rs : list Q) :
  let N := float (no_active_samples self) in
  (no_active_samples self = 0%Z -> fit retries self rs = Raise ZeroDivisionError) /\
  (no_active_samples self <> 0%Z -> ~ 0 < 1 - math_exp (-1 / N) ->
   fit retries self rs = Raise ValueError) /\
  (no_active_samples self <> 0%Z -> 0 < 1 - math_exp (-1 / N) ->
   (maximum_iterations self <= 1)%Z ->
   fit retries self rs
   = Ret ({| src := active_samples self;
             samples := posterior_inferences self;
             logZ := - inject_Z (10 ^ 300);
             Information_ := 0;
             likelihood_calculations := no_likelihood self;
             iterations := maximum_iterations self |}, rs)).
Proof.
  cbv zeta. unfold fit, fit_run, mbind, M_bind, bind, truediv, log.
  split; [|split].
  - intros ->. reflexivity.
  - intros HN Hpos. rewrite float_nonzero by exact HN. unfold ret at 1.
    destruct (lt 0 _) eqn:Hlt; [|reflexivity].
    apply lt_iff in Hlt. contradiction.
  - intros HN Hpos Hmax. rewrite float_nonzero by exact HN. unfold ret at 1.
    apply lt_iff in Hpos. rewrite Hpos. unfold ret at 1.
    unfold range. replace (Z.to_nat (maximum_iterations self - 1)) with O by lia.
    reflexivity.
Qed.

(** X13.  On an empty ensemble, as soon as the loop makes a
    pass, [fit] raises the [ValueError] of [np.argmin]. *)
Theorem fit_empty_ensemble (retries : nat) (self : t) (rs : list Q) :
  active_samples self = [] ->
  (2 <= maximum_iterations self)%Z ->
  no_active_samples self <> 0%Z ->
  0 < 1 - math_exp (-1 / float (no_active_samples self)) ->
  fit retries self rs = Raise ValueError.
Proof.
  intros Hempty Hmax HN Hpos.
  unfold fit, fit_run, mbind, M_bind, bind, truediv, log.
  rewrite float_nonzero by exact HN. unfold ret at 1.
  apply lt_iff in Hpos. rewrite Hpos. unfold ret at 1.
  rewrite range_cons by lia. cbn [for_each]. unfold bind at 1.
  unfold body at 1. unfold mbind, M_bind, bind.
  cbn [start LogL]. rewrite Hempty. reflexivity.
Qed.

End FitEdges.

(** ** What the Metropolis strategy never raises *)

Lemma argmin_from_bound l : forall bi b i,
  (bi < i)%nat -> (argmin_from bi b i l < i + length l)%nat.
Proof.
  induction l as [|x l IH]; intros bi b i Hlt; cbn [argmin_from length]; [lia|].
  destruct (lt x b).
  - specialize (IH i x (S i)). lia.
  - specialize (IH bi b (S i)). lia.
Qed.

Lemma argmax_from_bound l : forall bi b i,
  (bi < i)%nat -> (argmax_from bi b i l < i + length l)%nat.
Proof.
  induction l as [|x l IH]; intros bi b i Hlt; cbn [argmax_from length]; [lia|].
  destruct (gt x b).
  - specialize (IH i x (S i)). lia.
  - specialize (IH bi b (S i)). lia.
Qed.

Lemma argmin_ok l :
  (0 < length l)%nat ->
  exists k, (k < length l)%nat /\ forall rs, argmin l rs = Ret (Z.of_nat k, rs).
Proof.
  destruct l as [|x l]; cbn [length]; [lia|]. intros _.
  exists (argmin_from 0 x 1 l). split; [|reflexivity].
  pose proof (argmin_from_bound l 0 x 1). lia.
Qed.

Lemma argmax_ok l :
  (0 < length l)%nat ->
  exists k, (k < length l)%nat /\ forall rs, argmax l rs = Ret (Z.of_nat k, rs).
Proof.
  destruct l as [|x l]; cbn [length]; [lia|]. intros _.
  exists (argmax_from 0 x 1 l). split; [|reflexivity].
  pose proof (argmax_from_bound l 0 x 1). lia.
Qed.

Lemma getitem_ok {T} (l : list T) (k : nat) :
  (k < length l)%nat ->
  exists v, l !! k = Some v /\ forall rs, getitem l (Z.of_nat k) rs = Ret (v, rs).
Proof.
  intros Hk. destruct (lookup_lt_is_Some_2 l k Hk) as [v Hv].
  exists v. split; [exact Hv|]. intros rs. apply getitem_nat. auto.
Qed.

Lemma setitem_ok {T} (l : list T) (k : nat) (x : T) rs :
  (k < length l)%nat -> setitem l (Z.of_nat k) x rs = Ret (<[k := x]> l, rs).
Proof. intros Hk. apply setitem_nat. auto. Qed.

Section FitSafety.
Context `{Numerics} `{Model} `{Clustering}.
Import nest.Nested_Sampler.

Lemma pick_survivor_no_raise N smallest rs e :
  N <> 0%Z -> pick_survivor N smallest rs <> Raise e.
Proof.
  intros HN. induction rs as [|u rs IH]; cbn [pick_survivor]; [discriminate|].
  destruct (Z.eqb_spec N 0); [contradiction|].
  destruct (negb _); [discriminate|exact IH].
Qed.

Lemma pick_survivor_index N smallest rs s rs' :
  (0 < N)%Z -> pick_survivor N smallest rs = Ret (s, rs') ->
  exists k, s = Z.of_nat k /\ (k < Z.to_nat N)%nat.
Proof.
  intros HN (_ & _ & [a ->] & _)%pick_survivor_Ret.
  pose proof (Z.mod_pos_bound a N HN).
  exists (Z.to_nat (a mod N)). split; lia.
Qed.

Hypothesis exp_nonzero : forall x, Qeq_bool (math_exp x) 0 = false.
Hypothesis x_upper_nonzero : Qeq_bool (snd getPrior_X) 0 = false.

Lemma nest_sample_no_raise obj constraint c rs e :
  nest.Metropolis_sampler.sample
    (nest.Metropolis_sampler.init obj constraint c) rs <> Raise e.
Proof.
  change (nest.Metropolis_sampler.init obj constraint c)
    with (Sim.obj (metropolis.Metropolis_sampler.init obj constraint c)).
  rewrite sample_same. apply sample_no_raise; assumption.
Qed.

(** A pass over an ensemble of N points raises nothing and leaves an
    ensemble of N points. *)
Lemma iteration_no_raise retries self i st rs :
  sample self = "metropolis"%string ->
  (0 < no_active_samples self)%Z ->
  length (self_active_samples st) = Z.to_nat (no_active_samples self) ->
  length (LogL st) = Z.to_nat (no_active_samples self) ->
  (forall e, body retries self i st rs <> Raise e) /\
  (forall st' rs', body retries self i st rs = Ret (st', rs') ->
     length (self_active_samples st') = Z.to_nat (no_active_samples self) /\
     length (LogL st') = Z.to_nat (no_active_samples self)).
Proof.
  intros Hm HN Hact Hlogl.
  destruct (argmin_ok (LogL st)) as (j & Hj & Hargmin); [lia|].
  destruct (getitem_ok (self_active_samples st) j) as (w0 & _ & Hget); [lia|].
  destruct (argmax_ok (LogL st)) as (g & Hg & Hargmax); [lia|].
  set (worst := set_logWt w0 (self_log_width st + logL w0)).
  destruct (getitem_ok (<[j := worst]> (self_active_samples st)) g)
    as (best & _ & Hbest); [rewrite length_insert; lia|].
  unfold body, mbind, M_bind, bind.
  rewrite Hargmin, Hget. fold worst.
  rewrite setitem_ok by lia. rewrite Hargmax, Hbest.
  destruct (pick_survivor _ _ rs) as [[survivor rs1]|e1|] eqn:Hpick.
  - apply pick_survivor_index in Hpick as (k & -> & Hk); [|exact HN].
    rewrite Hm. cbn [String.eqb Ascii.eqb Bool.eqb].
    destruct (getitem_ok (<[j := worst]> (self_active_samples st)) k)
      as (obj & _ & Hobj); [rewrite length_insert; lia|].
    rewrite Hobj. unfold metropolis_sampling.
    destruct (nest.Metropolis_sampler.sample _ rs1) as [[[updated number] rs2]|e2|]
      eqn:Hs.
    + rewrite setitem_ok by (rewrite length_insert; lia).
      rewrite setitem_ok by lia. unfold ret at 1 2. cbn beta iota.
      unfold truediv. rewrite float_nonzero by lia. unfold ret.
      split; [discriminate|]. intros st' rs' [= <- _].
      cbn [self_active_samples LogL]. rewrite !length_insert. auto.
    + exfalso. exact (nest_sample_no_raise _ _ _ _ _ Hs).
    + split; [discriminate|discriminate].
  - exfalso. apply pick_survivor_no_raise in Hpick; [exact Hpick|lia].
  - split; discriminate.
Qed.

Lemma loop_never_raises retries self l :
  sample self = "metropolis"%string ->
  (0 < no_active_samples self)%Z ->
  forall st rs e,
    length (self_active_samples st) = Z.to_nat (no_active_samples self) ->
    length (LogL st) = Z.to_nat (no_active_samples self) ->
    for_each l (body retries self) st rs <> Raise e.
Proof.
  intros Hm HN. induction l as [|i l IH]; intros st rs e Hact Hlogl;
    cbn [for_each]; [discriminate|].
  destruct (iteration_no_raise retries self i st rs Hm HN Hact Hlogl) as [Hno Hkeep].
  unfold bind. destruct (body retries self i st rs) as [[st1 rs1]|e1|] eqn:Hb.
  - destruct (Hkeep st1 rs1 eq_refl). apply IH; assumption.
  - exfalso. exact (Hno e1 eq_refl).
  - discriminate.
Qed.

End FitSafety.

Section FitSafe.
Context `{Numerics} `{Model} `{Clustering}.
Import nest.Nested_Sampler.

(** X14.  With the Metropolis strategy, an ensemble of
    [no_active_samples] points (at least one), a positive 1 - exp(-1/N), a
    non-zero upper bound of X and a [math.exp] that never returns zero, [fit]
    raises no exception: no index is out of range, no division fails. *)
Theorem fit_never_raises (retries : nat) (self : t) (rs : list Q) (e : exn) :
  sample self = "metropolis"%string ->
  Z.of_nat (length (active_samples self)) = no_active_samples self ->
  (1 <= no_active_samples self)%Z ->
  0 < 1 - math_exp (-1 / float (no_active_samples self)) ->
  ~ snd getPrior_X == 0 ->
  (forall x, ~ math_exp x == 0) ->
  fit retries self rs <> Raise e.
Proof.
  intros Hm Hlen HN Hpos Hx Hexp.
  assert (Hexp' : forall x, Qeq_bool (math_exp x) 0 = false).
  { intros x. apply not_true_iff_false. intros Heq%Qeq_bool_iff. exact (Hexp x Heq). }
  assert (Hx' : Qeq_bool (snd getPrior_X) 0 = false).
  { apply not_true_iff_false. intros Heq%Qeq_bool_iff. exact (Hx Heq). }
  unfold fit, fit_run, mbind, M_bind, bind, truediv, log.
  rewrite float_nonzero by lia. unfold ret at 1.
  apply lt_iff in Hpos. rewrite Hpos. unfold ret at 1.
  match goal with |- context [for_each ?l ?b ?s rs] =>
    destruct (for_each l b s rs) as [[st1 rs1]|e1|] eqn:Hl end; try discriminate.
  exfalso. apply loop_never_raises in Hl; try assumption; try lia.
  - cbn [start self_active_samples]. lia.
  - cbn [start LogL]. rewrite List.length_map. lia.
Qed.

End FitSafe.

(** ** The images of plot.py *)

Lemma range_lookup lo hi (k : nat) :
  (k < Z.to_nat (hi - lo))%nat -> range lo hi !! k = Some (lo + Z.of_nat k)%Z.
Proof.
  intros Hk. unfold range.
  change (List.map ?f ?l) with (f <$> l).
  rewrite list_lookup_fmap.
  change (List.seq 0 (Z.to_nat (hi - lo))) with (seq 0 (Z.to_nat (hi - lo))).
  rewrite lookup_seq_lt by exact Hk. reflexivity.
Qed.

Lemma lookup_repeat {T} (x : T) (n i : nat) :
  (i < n)%nat -> repeat x n !! i = Some x.
Proof.
  revert i. induction n as [|n IH]; intros i Hi; [lia|].
  destruct i as [|i]; [reflexivity|]. cbn. apply IH. lia.
Qed.

Section Images.
Context `{Numerics}.
Import plot.

Lemma zeros_Ret height width rs z rs' :
  zeros height width rs = Ret (z, rs') <->
  (0 <= height)%Z /\ (0 <= width)%Z /\
  z = repeat (repeat 0 (Z.to_nat width)) (Z.to_nat height) /\ rs' = rs.
Proof.
  unfold zeros.
  destruct (Z.ltb_spec height 0), (Z.ltb_spec width 0); cbn [orb]; split;
    try (intros []%raise_Ret); try (intros (? & ? & _); lia).
  - intros [-> ->]%ret_Ret. auto.
  - intros (_ & _ & -> & ->). reflexivity.
Qed.

Lemma add_grid_shaped z xs ys b :
  shaped (length ys) (length xs) z ->
  shaped (length ys) (length xs) (add_grid z xs ys b).
Proof.
  intros [Hlen Hrows]. unfold add_grid. split.
  - rewrite length_zip_with. lia.
  - apply Forall_lookup. intros j row Hrow.
    apply lookup_zip_with_Some in Hrow as (y & row0 & -> & _ & Hrow0).
    rewrite length_zip_with.
    rewrite (proj1 (Forall_lookup _ _) Hrows _ _ Hrow0). lia.
Qed.

Lemma add_grid_pixel z xs ys b (i j : nat) x y row v :
  xs !! i = Some x -> ys !! j = Some y ->
  z !! j = Some row -> row !! i = Some v ->
  exists row', add_grid z xs ys b !! j = Some row' /\
               row' !! i = Some (v + b x y).
Proof.
  intros Hx Hy Hrow Hv. unfold add_grid. eexists. split.
  - apply lookup_zip_with_Some. eauto.
  - apply lookup_zip_with_Some. eauto.
Qed.

Lemma entries_Ret i rs v rs' :
  entries i rs = Ret (v, rs') ->
  (4 <= length i)%nat /\ rs' = rs /\
  v = (List.nth 0 i 0, List.nth 1 i 0, List.nth 2 i 0, List.nth 3 i 0).
Proof.
  unfold entries. intros Hrun.
  next_as Hrun E2. apply (getitem_nat i 2) in E2 as [H2 ->].
  next_as Hrun E0. apply (getitem_nat i 0) in E0 as [H0 ->].
  next_as Hrun E1. apply (getitem_nat i 1) in E1 as [H1 ->].
  next_as Hrun E3. apply (getitem_nat i 3) in E3 as [H3 ->].
  apply ret_Ret in Hrun as [-> ->].
  destruct i as [|q0 [|q1 [|q2 [|q3 i]]]]; try discriminate.
  cbn in *. split; [lia|]. split; [reflexivity|]. congruence.
Qed.

Lemma entries_short i rs :
  (length i < 4)%nat -> entries i rs = Raise IndexError.
Proof.
  intros Hlen. destruct i as [|q0 [|q1 [|q2 [|q3 i]]]]; cbn in Hlen; try lia;
    reflexivity.
Qed.

Lemma entries_ok i rs :
  (4 <= length i)%nat ->
  entries i rs
  = Ret ((List.nth 0 i 0, List.nth 1 i 0, List.nth 2 i 0, List.nth 3 i 0), rs).
Proof.
  intros Hlen. destruct i as [|q0 [|q1 [|q2 [|q3 i]]]]; cbn in Hlen; try lia.
  reflexivity.
Qed.

(** The loop over the rows adds, at every pixel, the values of the rows in
    turn. *)
Lemma accumulate_Ret xs ys src_array :
  forall z rs img rs',
    shaped (length ys) (length xs) z ->
    accumulate src_array xs ys z rs = Ret (img, rs') ->
    rs' = rs /\ Forall (fun i => 4 <= length i)%nat src_array /\
    shaped (length ys) (length xs) img /\
    forall (i j : nat) x y row v,
      xs !! i = Some x -> ys !! j = Some y ->
      z !! j = Some row -> row !! i = Some v ->
      exists row', img !! j = Some row' /\
        row' !! i = Some (List.fold_left (fun acc s => acc + value s x y) src_array v).
Proof.
  induction src_array as [|s rest IH]; intros z rs img rs' Hz; cbn [accumulate].
  - intros [-> ->]%ret_Ret. repeat split; try apply Hz; [constructor|].
    intros i j x y row v _ _ Hrow Hv. eauto.
  - intros Hrun. next_as Hrun Ee.
    apply entries_Ret in Ee as (Hlen & -> & ->).
    apply IH in Hrun as (-> & Hall & Himg & Hpix); [|apply add_grid_shaped, Hz].
    repeat split; try apply Himg; [constructor; assumption|].
    intros i j x y row v Hx Hy Hrow Hv.
    destruct (add_grid_pixel z xs ys
                (bump (List.nth 0 s 0) (List.nth 1 s 0) (List.nth 2 s 0) (List.nth 3 s 0))
                i j x y row v Hx Hy Hrow Hv) as (row1 & Hrow1 & Hv1).
    exact (Hpix i j x y row1 _ Hx Hy Hrow1 Hv1).
Qed.

Lemma zeros_shaped height width :
  shaped (length (arange height)) (length (arange width))
    (repeat (repeat 0 (Z.to_nat width)) (Z.to_nat height)).
Proof.
  unfold arange. rewrite !range_length, !Z.sub_0_r. split.
  - apply repeat_length.
  - apply Forall_forall. intros row Hin%list_elem_of_In%repeat_spec. subst row.
    apply repeat_length.
Qed.

(** X15.  For rows whose radius is not 0: when [make_source] returns, it
    has read no draw, both dimensions are non-negative, every row of
    [src_array] has at least four entries, the image has [height] rows of
    [width] pixels, and the pixel (x, y) is 0 plus, row after row,
    A exp(-((x - X)^2 + (y - Y)^2) / (2 R^2)). *)
Theorem make_source_image (src_array : list (list Q)) (height width : Z)
    (rs rs' : list Q) (img : list (list Q)) :
  Forall (fun i => ~ List.nth 3 i 0 == 0) src_array ->
  make_source src_array height width rs = Ret (img, rs') ->
  rs' = rs /\ (0 <= height)%Z /\ (0 <= width)%Z /\
  Forall (fun i => 4 <= length i)%nat src_array /\
  length img = Z.to_nat height /\
  Forall (fun row => length row = Z.to_nat width) img /\
  forall x y : nat,
    (x < Z.to_nat width)%nat -> (y < Z.to_nat height)%nat ->
    exists row, img !! y = Some row /\
      row !! x = Some (List.fold_left
                         (fun acc s => acc + value s (Z.of_nat x) (Z.of_nat y))
                         src_array 0).
Proof.
  unfold make_source. intros _ Hrun. next_as Hrun Ez.
  apply zeros_Ret in Ez as (Hh & Hw & -> & ->).
  apply accumulate_Ret in Hrun as (-> & Hall & [Hlen Hrows] & Hpix);
    [|apply zeros_shaped].
  unfold arange in Hlen, Hrows. rewrite range_length, Z.sub_0_r in Hlen, Hrows.
  repeat split; auto.
  intros x y Hx Hy.
  apply (Hpix x y (Z.of_nat x) (Z.of_nat y) (repeat 0 (Z.to_nat width)) 0).
  - unfold arange. rewrite range_lookup by lia. f_equal.
  - unfold arange. rewrite range_lookup by lia. f_equal.
  - apply lookup_repeat; lia.
  - apply lookup_repeat; lia.
Qed.

Lemma accumulate_ok xs ys src_array :
  Forall (fun i => 4 <= length i)%nat src_array ->
  forall z rs, exists img, accumulate src_array xs ys z rs = Ret (img, rs).
Proof.
  induction 1 as [|s rest Hs _ IH]; intros z rs; cbn [accumulate]; [eexists; reflexivity|].
  unfold mbind, M_bind, bind. rewrite entries_ok by exact Hs. apply IH.
Qed.

Lemma accumulate_short xs ys src_array :
  Exists (fun i => length i < 4)%nat src_array ->
  forall z rs, accumulate src_array xs ys z rs = Raise IndexError.
Proof.
  induction src_array as [|s rest IH]; intros Hex z rs; [inversion Hex|].
  cbn [accumulate]. unfold mbind, M_bind, bind.
  destruct (Nat.lt_ge_cases (length s) 4) as [Hlt|Hge].
  - rewrite entries_short by exact Hlt. reflexivity.
  - rewrite entries_ok by exact Hge. apply IH.
    inversion Hex; subst; [lia|assumption].
Qed.

(** X16.  [make_source] raises [ValueError] when a dimension is
    negative; otherwise it raises [IndexError] when some row of [src_array]
    has fewer than four entries, and returns an image when none has. *)
Theorem make_source_outcome (src_array : list (list Q)) (height width : Z)
    (rs : list Q) :
  ((height < 0)%Z \/ (width < 0)%Z ->
   make_source src_array height width rs = Raise ValueError) /\
  ((0 <= height)%Z -> (0 <= width)%Z ->
   (Exists (fun i => length i < 4)%nat src_array ->
    make_source src_array height width rs = Raise IndexError) /\
   (Forall (fun i => 4 <= length i)%nat src_array ->
    exists img, make_source src_array height width rs = Ret (img, rs))).
Proof.
  unfold make_source, mbind, M_bind, bind, zeros. split.
  - intros Hneg.
    destruct (Z.ltb_spec height 0), (Z.ltb_spec width 0); cbn [orb];
      try reflexivity; lia.
  - intros Hh Hw.
    destruct (Z.ltb_spec height 0), (Z.ltb_spec width 0); try lia. cbn [orb].
    split.
    + intros Hex. unfold ret at 1. apply accumulate_short, Hex.
    + intros Hall. unfold ret at 1. apply accumulate_ok, Hall.
Qed.

End Images.

Section RandomImages.
Context `{Numerics}.
Import plot.

Lemma uniform_Ret b rs v rs' :
  uniform b rs = Ret (v, rs') <->
  exists u, rs = u :: rs' /\ v = fst b + (snd b - fst b) * u.
Proof.
  unfold uniform. destruct rs as [|u rs0]; split.
  - discriminate.
  - intros (u & [=] & _).
  - intros [= <- <-]. eauto.
  - intros (u' & [= <- <-] & ->). reflexivity.
Qed.

Lemma uniform_within b u :
  fst b <= snd b -> 0 <= u <= 1 ->
  Spec.within (fst b + (snd b - fst b) * u) b.
Proof. unfold Spec.within. intros Hb [H0 H1]. split; nra. Qed.

Lemma uniform_above b u :
  fst b <= snd b -> 0 <= u -> fst b <= fst b + (snd b - fst b) * u.
Proof. intros Hb Hu. nra. Qed.

(** The loop of [make_random_source] is the loop of [make_source] over the
    rows that its draws stand for. *)
Lemma scatter_Ret x_b y_b a_b r_b xs ys :
  fst x_b <= snd x_b -> fst y_b <= snd y_b ->
  fst a_b <= snd a_b -> fst r_b <= snd r_b -> 0 < fst r_b ->
  forall n z rs img rs',
    Forall (fun u => 0 <= u <= 1) rs ->
    scatter n x_b y_b a_b r_b xs ys z rs = Ret (img, rs') ->
    let rows := rows_of_draws n x_b y_b a_b r_b rs in
    length rows = n /\
    length rs = (4 * n + length rs')%nat /\
    rs' = drop (4 * n) rs /\
    Forall (drawn x_b y_b a_b r_b) rows /\
    Forall (fun i => ~ List.nth 3 i 0 == 0) rows /\
    forall rs0, accumulate rows xs ys z rs0 = Ret (img, rs0).
Proof.
  intros Hx Hy Ha Hr Hr0.
  induction n as [|n IH]; intros z rs img rs' Hdraws; cbn [scatter].
  - intros [-> ->]%ret_Ret. cbn. repeat split; auto.
  - intros Hrun.
    next_as Hrun Ea. apply uniform_Ret in Ea as (u1 & -> & ->).
    next_as Hrun Ex. apply uniform_Ret in Ex as (u2 & -> & ->).
    next_as Hrun Ey. apply uniform_Ret in Ey as (u3 & -> & ->).
    next_as Hrun Er. apply uniform_Ret in Er as (u4 & -> & ->).
    inversion Hdraws as [|? ? H1 Hd1]; subst.
    inversion Hd1 as [|? ? H2 Hd2]; subst.
    inversion Hd2 as [|? ? H3 Hd3]; subst.
    inversion Hd3 as [|? ? H4 Hd4]; subst.
    apply IH in Hrun as (Hlen & Hrs & Hrest & Hrows & Hrad & Hacc); [|exact Hd4].
    cbv zeta. cbn [rows_of_draws].
    replace (4 * S n)%nat with (S (S (S (S (4 * n))))) by lia.
    cbn [drop length].
    split; [rewrite Hlen; reflexivity|]. split; [lia|]. split; [exact Hrest|].
    split; [|split].
    + constructor; [|exact Hrows].
      do 4 eexists. split; [reflexivity|].
      split; [|split; [|split]]; apply uniform_within; assumption.
    + constructor; [|exact Hrad]. cbn [List.nth].
      pose proof (uniform_above r_b u4 Hr (proj1 H4)) as Hge.
      intros Hz. rewrite Hz in Hge. lra.
    + intros rs0. cbn [accumulate]. unfold mbind, M_bind, bind.
      rewrite entries_ok by (cbn; lia). cbn [List.nth]. apply Hacc.
Qed.

(** X17.  With ordered limits, a positive lower limit of the radius and
    draws in [0, 1]: when [make_random_source] returns an image for n
    sources, it has read the first 4n draws, and the image is the one that
    [make_source] returns for the n rows [X, Y, A, R] that these draws stand
    for, four by four in the order A, X, Y, R, each scaled into its limits
    as lower + (upper - lower) * draw; every row lies within the limits and
    has a radius other than 0. *)
Theorem make_random_source_image (x_b y_b a_b r_b : Q * Q) (width height n : Z)
    (rs rs' : list Q) (img : list (list Q)) :
  fst x_b <= snd x_b -> fst y_b <= snd y_b ->
  fst a_b <= snd a_b -> fst r_b <= snd r_b -> 0 < fst r_b ->
  Forall (fun u => 0 <= u <= 1) rs ->
  make_random_source x_b y_b a_b r_b width height n rs = Ret (img, rs') ->
  let src_array := rows_of_draws (Z.to_nat n) x_b y_b a_b r_b rs in
  length src_array = Z.to_nat n /\
  length rs = (4 * Z.to_nat n + length rs')%nat /\
  rs' = drop (4 * Z.to_nat n) rs /\
  Forall (drawn x_b y_b a_b r_b) src_array /\
  Forall (fun i => ~ List.nth 3 i 0 == 0) src_array /\
  forall rs0, make_source src_array height width rs0 = Ret (img, rs0).
Proof.
  intros Hx Hy Ha Hr Hr0 Hdraws. unfold make_random_source. intros Hrun.
  next_as Hrun Ez. pose proof Ez as (Hh & Hw & -> & ->)%zeros_Ret.
  apply scatter_Ret in Hrun as (Hlen & Hrs & Hrest & Hrows & Hrad & Hacc);
    try assumption.
  rewrite range_length, Z.sub_0_r in Hlen, Hrs, Hrest, Hrows, Hrad, Hacc.
  cbv zeta. repeat split; try assumption.
  intros rs0. unfold make_source, mbind, M_bind, bind.
  assert (Hz0 : zeros height width rs0
                = Ret (repeat (repeat 0 (Z.to_nat width)) (Z.to_nat height), rs0))
    by (apply zeros_Ret; auto).
  rewrite Hz0. apply Hacc.
Qed.

End RandomImages.

(** ** Concrete runs for the further properties *)

Lemma fit_unknown_eq :
  @nest.Nested_Sampler.fit Demo.numerics Demo.model Demo.clustering 0 Cases.unknown
    [1 # 2; 1 # 2]
  = Cases.fit_unknown.
Proof. vm_compute. reflexivity. Qed.

Lemma image_eq :
  @plot.make_source Demo.numerics Cases.one_source 2 3 [] = Cases.image.
Proof. vm_compute. reflexivity. Qed.

Lemma random_image_eq :
  @plot.make_random_source Demo.numerics (0, 200) (0, 200) (1, 14) (2, 9) 3 2 1
    Cases.four_draws
  = Cases.random_image.
Proof. vm_compute. reflexivity. Qed.

Lemma square_nonneg (y : Q) : 0 <= y * y.
Proof.
  destruct (Qlt_le_dec y 0) as [Hn|Hp].
  - assert (E : y * y == (- y) * (- y)) by ring.
    rewrite E. apply Qmult_le_0_compat; lra.
  - apply Qmult_le_0_compat; assumption.
Qed.

Lemma cases_exp_nonzero x : ~ @math_exp Cases.numerics x == 0.
Proof.
  cbn [math_exp Cases.numerics]. intros Hz.
  assert (Hpos : 0 < 1 - x + x * x / 2).
  { assert (E : 1 - x + x * x / 2 == ((x - 1) * (x - 1) + 1) * (1 # 2)) by field.
    rewrite E. pose proof (square_nonneg (x - 1)). lra. }
  assert (Hne : ~ 1 - x + x * x / 2 == 0) by (intros Heq; rewrite Heq in Hpos; discriminate).
  pose proof (Qmult_inv_r _ Hne) as Hinv.
  unfold Qdiv in Hz. rewrite Qmult_1_l in Hz. rewrite Hz, Qmult_0_r in Hinv.
  discriminate Hinv.
Qed.

Lemma demo_likelihood_coords (a b : Source) :
  X a = X b -> Y a = Y b -> A a = A b -> R a = R b ->
  @log_likelihood Demo.model a = @log_likelihood Demo.model b.
Proof. intros HX HY _ _. cbn [log_likelihood Demo.model]. rewrite HX, HY. reflexivity. Qed.

Lemma sample_draws_witness :
  exists s n rs' k,
    @metropolis.Metropolis_sampler.sample Demo.numerics Demo.model Demo.sampler
      Demo.draws_downhill = Ret ((s, n), rs') /\
    (20 <= k)%nat /\ length Demo.draws_downhill = (4 * k + length rs')%nat.
Proof.
  destruct (@sample_draws Demo.numerics Demo.model _ _ _ _ _ sample_downhill_eq)
    as (k & Hk & Hlen).
  eexists _, _, _, k. split; [exact sample_downhill_eq|]. split; assumption.
Defined.

Lemma seed_in_bounds : @Spec.in_bounds Demo.model Demo.seed.
Proof. repeat split; unfold Qle; simpl; lia. Qed.

Lemma sample_in_bounds_witness :
  exists s n rs',
    @metropolis.Metropolis_sampler.sample Demo.numerics Demo.model Demo.sampler
      Demo.draws_downhill = Ret ((s, n), rs') /\
    @Spec.in_bounds Demo.model s.
Proof.
  eexists _, _, _. split; [exact sample_downhill_eq|].
  exact (@sample_in_bounds Demo.numerics Demo.model Demo.sampler _ _ _ _
           seed_in_bounds sample_downhill_eq).
Defined.

Lemma sample_raises_iff_witness :
  (exists e, @metropolis.Metropolis_sampler.sample Cases.numerics Demo.model
               Demo.sampler [] = Raise e)
  <-> snd (@getPrior_X Demo.model) == 0.
Proof.
  exact (proj1 (@sample_raises_iff Cases.numerics Demo.model Demo.sampler []
                  cases_exp_nonzero)).
Defined.

Lemma sample_logL_cached_witness :
  exists s n rs',
    @metropolis.Metropolis_sampler.sample Demo.numerics Demo.model Demo.sampler
      Demo.draws_downhill = Ret ((s, n), rs') /\
    logL s = @log_likelihood Demo.model s.
Proof.
  eexists _, _, _. split; [exact sample_downhill_eq|].
  exact (@sample_logL_cached Demo.numerics Demo.model Demo.sampler _ _ _ _
           demo_likelihood_coords eq_refl sample_downhill_eq).
Defined.

Lemma fit_ensemble_kept_witness :
  exists st rs',
    @nest.Nested_Sampler.fit_run Demo.numerics Demo.model Demo.clustering 0
      Demo.nested (Demo.draws_still 162) = Ret (st, rs') /\
    length (nest.Nested_Sampler.self_active_samples st) = 2%nat /\
    nest.Nested_Sampler.LogL st
    = List.map logL (nest.Nested_Sampler.self_active_samples st).
Proof.
  eexists _, _. split; [exact run_nested_eq|].
  exact (@fit_ensemble_kept Demo.numerics Demo.model Demo.clustering
           _ _ _ _ _ run_nested_eq).
Defined.

Lemma fit_trace_sorted_witness :
  exists r rs' added,
    @nest.Nested_Sampler.fit Demo.numerics Demo.model Demo.clustering 0
      Demo.nested (Demo.draws_still 162) = Ret (r, rs') /\
    nest.Nested_Sampler.samples r = [] ++ added /\
    StronglySorted (fun a b => logL a <= logL b) added.
Proof.
  destruct (@fit_trace_sorted Demo.numerics Demo.model Demo.clustering
              _ _ _ _ _ fit_nested_eq) as (added & Hs & Hsorted & _).
  eexists _, _, added. split; [exact fit_nested_eq|]. split; assumption.
Defined.

Lemma fit_likelihood_calls_witness :
  exists r rs',
    @nest.Nested_Sampler.fit Demo.numerics Demo.model Demo.clustering 0
      Demo.nested (Demo.draws_still 162) = Ret (r, rs') /\
    nest.Nested_Sampler.likelihood_calculations r = 44%Z.
Proof.
  eexists _, _. split; [exact fit_nested_eq|].
  exact (@fit_likelihood_calls Demo.numerics Demo.model Demo.clustering
           0%nat Demo.nested _ _ _ eq_refl fit_nested_eq).
Defined.

Lemma fit_trace_weights_witness :
  exists r rs' added,
    @nest.Nested_Sampler.fit Demo.numerics Demo.model Demo.clustering 0
      Demo.nested (Demo.draws_still 162) = Ret (r, rs') /\
    nest.Nested_Sampler.samples r = [] ++ added /\
    forall (k : nat) e,
      added !! k = Some e ->
      logWt e
      = Some (Nat.iter k (fun w => w - 1 / float 2)
                (@math_log Demo.numerics (1 - @math_exp Demo.numerics (-1 / float 2)))
              + logL e).
Proof.
  destruct (@fit_trace_weights Demo.numerics Demo.model Demo.clustering
              _ _ _ _ _ fit_nested_eq) as (added & Hs & Hw).
  eexists _, _, added. split; [exact fit_nested_eq|]. split; assumption.
Defined.

Lemma fit_unknown_strategy_witness :
  exists r rs',
    @nest.Nested_Sampler.fit Demo.numerics Demo.model Demo.clustering 0
      Cases.unknown [1 # 2; 1 # 2] = Ret (r, rs') /\
    List.map Spec.coords (nest.Nested_Sampler.src r)
    = List.map Spec.coords Demo.ensemble2 /\
    nest.Nested_Sampler.likelihood_calculations r = 2%Z.
Proof.
  eexists _, _. split; [exact fit_unknown_eq|].
  refine (@fit_unknown_strategy Demo.numerics Demo.model Demo.clustering
            0%nat Cases.unknown _ _ _ _ _ fit_unknown_eq); discriminate.
Defined.

Lemma fit_before_loop_witness :
  exists r,
    @nest.Nested_Sampler.fit Demo.numerics Demo.model Demo.clustering 0
      Cases.idle [] = Ret (r, []) /\
    nest.Nested_Sampler.samples r = [].
Proof.
  eexists. split.
  - refine (proj2 (proj2 (@fit_before_loop Demo.numerics Demo.model Demo.clustering
                            0%nat Cases.idle [])) _ _ _);
      [discriminate|reflexivity|discriminate].
  - reflexivity.
Defined.

Lemma fit_empty_ensemble_witness :
  @nest.Nested_Sampler.fit Demo.numerics Demo.model Demo.clustering 0 Cases.empty []
  = Raise ValueError.
Proof.
  refine (@fit_empty_ensemble Demo.numerics Demo.model Demo.clustering
            0%nat Cases.empty [] eq_refl _ _ _).
  - discriminate.
  - discriminate.
  - reflexivity.
Defined.

Lemma fit_never_raises_witness :
  @nest.Nested_Sampler.fit Cases.numerics Demo.model Demo.clustering 0 Demo.nested
    (Demo.draws_still 3) <> Raise IndexError.
Proof.
  refine (@fit_never_raises Cases.numerics Demo.model Demo.clustering
            0%nat Demo.nested _ _ eq_refl eq_refl _ _ _ cases_exp_nonzero).
  - discriminate.
  - reflexivity.
  - discriminate.
Defined.

Lemma make_source_image_witness :
  exists img row,
    @plot.make_source Demo.numerics Cases.one_source 2 3 [] = Ret (img, []) /\
    img !! 1%nat = Some row /\
    row !! 1%nat
    = Some (0 + @plot.value Demo.numerics [1; 1; 2; 1] 1 1).
Proof.
  assert (Hrad : Forall (fun i => ~ List.nth 3 i 0 == 0) Cases.one_source)
    by (repeat constructor; discriminate).
  destruct (@make_source_image Demo.numerics _ _ _ _ _ _ Hrad image_eq)
    as (_ & _ & _ & _ & _ & _ & Hpix).
  destruct (Hpix 1%nat 1%nat) as (row & Hrow & Hv); [cbn; lia|cbn; lia|].
  eexists _, row. split; [exact image_eq|]. split; [exact Hrow|exact Hv].
Defined.

Lemma make_source_outcome_witness :
  @plot.make_source Demo.numerics [[1; 1; 2]] 2 3 [] = Raise IndexError.
Proof.
  refine (proj1 (proj2 (@make_source_outcome Demo.numerics [[1; 1; 2]] 2 3 [])
                   _ _) _).
  - discriminate.
  - discriminate.
  - constructor. cbn. lia.
Defined.

Lemma make_random_source_image_witness :
  exists img rs',
    @plot.make_random_source Demo.numerics (0, 200) (0, 200) (1, 14) (2, 9) 3 2 1
      Cases.four_draws = Ret (img, rs') /\
    rs' = [] /\
    @plot.make_source Demo.numerics
      [[0 + (200 - 0) * (1 # 4); 0 + (200 - 0) * (3 # 4);
        1 + (14 - 1) * (1 # 2); 2 + (9 - 2) * 1]] 2 3 []
    = Ret (img, []).
Proof.
  assert (Hdraws : Forall (fun u => 0 <= u <= 1) Cases.four_draws)
    by (repeat constructor; discriminate).
  assert (Hx : fst (0, 200) <= snd (0, 200)) by discriminate.
  assert (Ha : fst (1, 14) <= snd (1, 14)) by discriminate.
  assert (Hr : fst (2, 9) <= snd (2, 9)) by discriminate.
  assert (Hr0 : 0 < fst (2, 9)) by reflexivity.
  destruct (@make_random_source_image Demo.numerics
              (0, 200) (0, 200) (1, 14) (2, 9) 3 2 1 _ _ _
              Hx Hx Ha Hr Hr0 Hdraws random_image_eq)
    as (_ & _ & Hrest & _ & _ & Hmake).
  eexists _, _. split; [exact random_image_eq|]. split; [exact Hrest|].
  apply (Hmake []).
Defined.

Section MoreProperties.
Context `{Numerics} `{Model} `{Clustering}.

(** X6.  For a positive [N], the index that the survivor loop
    returns lies in [0, N) and is not the worst index, and the loop has read
    at least one draw: the seed handed to the strategy is a member of an
    ensemble of [N] points other than the discarded one. *)
Theorem survivor_valid (N smallest s : Z) (rs rs' : list Q) :
  (0 < N)%Z ->
  nest.Nested_Sampler.pick_survivor N smallest rs = Ret (s, rs') ->
  (0 <= s < N)%Z /\ s <> smallest /\ (length rs' < length rs)%nat.
Proof.
  intros HN Hp. pose proof Hp as (Hne & _ & _ & Hlen)%pick_survivor_Ret.
  apply pick_survivor_index in Hp as (k & -> & Hk); [|exact HN].
  repeat split; auto; lia.
Qed.

Import metropolis.Metropolis_sampler.

(** X5.  When [sample] leaves its loop, hits and misses add
    up to 20; with no hit the chain is still on its seed, and with a hit it
    is on a point whose logL exceeds the constraint. *)
Theorem sample_hits (self : t) (rs rs' : list Q) (st : locals) :
  sample_run self rs = Ret (st, rs') ->
  (0 <= hit st)%Z /\ (0 <= miss st)%Z /\ (hit st + miss st = 20)%Z /\
  (hit st = 0%Z -> metro st = source self) /\
  ((0 < hit st)%Z -> LC self < logL (metro st)).
Proof.
  intros Hrun. pose proof (sample_run_counters _ _ _ _ Hrun) as (_ & _ & _ & Hsum).
  apply sample_run_Ret in Hrun as (st0 & Hloop & Hm & _ & _ & _ & Hh & Hms).
  apply (loop_invariant self
           (fun s => (0 <= hit s)%Z /\ (0 <= miss s)%Z /\
                     (hit s = 0%Z -> metro s = source self) /\
                     ((0 < hit s)%Z -> LC self < logL (metro s)))) in Hloop.
  - destruct Hloop as ((Ha & Hb0 & Hc & Hd) & _). auto.
  - intros s rs1 s1 rs2 (Ha & Hb0 & Hc & Hd) _ Hb.
    apply body_Ret in Hb. cbv zeta in Hb.
    destruct Hb as (_ & _ & Hmetro & Hhit & Hmiss & _).
    rewrite Hmetro, Hhit, Hmiss. destruct (gt _ _) eqn:Hacc.
    + repeat split; try lia. intros _. apply gt_iff, Hacc.
    + repeat split; try lia; assumption.
  - rewrite Hh, Hms, Hm. repeat split; try lia; reflexivity.
Qed.

End MoreProperties.

Lemma survivor_valid_witness :
  exists s rs',
    nest.Nested_Sampler.pick_survivor 2 0 [0; 1 # 2; 1 # 4] = Ret (s, rs') /\
    (0 <= s < 2)%Z /\ s <> 0%Z.
Proof.
  assert (E : nest.Nested_Sampler.pick_survivor 2 0 [0; 1 # 2; 1 # 4]
              = Ret (1%Z, [1 # 4])) by reflexivity.
  eexists _, _. split; [exact E|].
  destruct (survivor_valid 2 0 _ _ _ eq_refl E) as (Hs & Hne & _).
  split; assumption.
Defined.

Lemma sample_hits_witness :
  exists st rs',
    @metropolis.Metropolis_sampler.sample_run Demo.numerics Demo.model
      (metropolis.Metropolis_sampler.init Demo.seed (- (1000000)) 2)
      Demo.draws_downhill = Ret (st, rs') /\
    (metropolis.Metropolis_sampler.hit st
     + metropolis.Metropolis_sampler.miss st = 20)%Z.
Proof.
  eexists _, _. split; [exact run_downhill_eq|].
  exact (proj1 (proj2 (proj2 (@sample_hits Demo.numerics Demo.model _ _ _ _
                                run_downhill_eq)))).
Defined.
